(** * Layer primitives of [modules.py]: a shallow embedding

    The module builds five network primitives on top of TensorFlow:
    [embed], [normalize], [highwaynet], [conv1d] and [conv1d_transpose].

    Conventions of the embedding.
    - A scalar is a real number: float32 arithmetic is idealised, so the
      statements below are exact identities of real arithmetic.
    - A tensor is a nested list.  Sequence data has the layout
      [batch, time, channels] of the docstrings, which is the rank every
      call of this module passes on, so [tensor3] is the working type.
    - Learned variables are read from an explicit record of stored
      values; the primitives never write them.
    - A Python exception is a value [Err e] of the [result] type.
    - The TensorFlow operations the module calls are modelled in
      [Module tf] after their documented behaviour. *)

From Stdlib Require Import String Ascii Bool ZArith Reals Lra Lia List.
Import ListNotations.

Open Scope R_scope.

(** ** Errors *)

Inductive error : Type :=
| ValueError
| ShapeError
| IndexError.

Inductive result (A : Type) : Type :=
| Ok (a : A)
| Err (e : error).

Arguments Ok {A} a.
Arguments Err {A} e.

Definition bind {A B : Type} (m : result A) (k : A -> result B) : result B :=
  match m with
  | Ok a => k a
  | Err e => Err e
  end.

Notation "x <- m ;; k" := (bind m (fun x => k))
  (at level 61, m at next level, right associativity).

Fixpoint mapM {A B : Type} (f : A -> result B) (l : list A) : result (list B) :=
  match l with
  | [] => Ok []
  | a :: l' => b <- f a ;; bs <- mapM f l' ;; Ok (b :: bs)
  end.

(** ** Tensors *)

Abbreviation vec := (list R).
Abbreviation mat := (list (list R)).
Abbreviation tensor3 := (list (list (list R))).
Abbreviation tensor4 := (list (list (list (list R)))).

Definition map3 (f : R -> R) (x : tensor3) : tensor3 :=
  map (map (map f)) x.

Fixpoint imap_from {A B : Type} (i : nat) (f : nat -> A -> B) (l : list A) : list B :=
  match l with
  | [] => []
  | a :: l' => f i a :: imap_from (S i) f l'
  end.

Definition imap {A B : Type} (f : nat -> A -> B) (l : list A) : list B :=
  imap_from 0 f l.

Fixpoint map2 {A B C : Type} (f : A -> B -> C) (a : list A) (b : list B) : list C :=
  match a, b with
  | x :: a', y :: b' => f x y :: map2 f a' b'
  | _, _ => []
  end.

(** Element-wise binary operation along one axis with NumPy broadcasting:
    an axis of extent one is stretched to the extent of the other
    operand. *)
Definition bcast {A B C : Type} (f : A -> B -> C) (a : list A) (b : list B) : list C :=
  match a, b with
  | [x], _ => map (f x) b
  | _, [y] => map (fun x => f x y) a
  | _, _ => map2 f a b
  end.

Definition bcast3 (f : R -> R -> R) (a b : tensor3) : tensor3 :=
  bcast (bcast (bcast f)) a b.

Definition sum (v : vec) : R := fold_right Rplus 0 v.

Definition dot (a b : vec) : R := sum (map2 Rmult a b).

Definition column {A : Type} (d : A) (c : nat) (m : list (list A)) : list A :=
  map (fun row => nth c row d) m.

(** Static extent of the channel axis, read off the first position. *)
Definition channels (x : tensor3) : nat :=
  match x with
  | (v :: _) :: _ => length v
  | _ => 0%nat
  end.

(** Static extent of the time axis: the length of the sequences of the
    batch, of the longest one should they differ. *)
Definition time_dim (x : tensor3) : nat :=
  list_max (map (@length (list R)) x).

(** [x] has static shape [n, t, c]. *)
Definition shape3 (n t c : nat) (x : tensor3) : Prop :=
  length x = n /\
  Forall (fun s => length s = t /\ Forall (fun v : vec => length v = c) s) x.

Definition has_shape2 (r c : nat) (m : mat) : bool :=
  (length m =? r)%nat && forallb (fun v => (length v =? c)%nat) m.

(** ** Strings *)

Definition lower_ascii (ch : ascii) : ascii :=
  let n := nat_of_ascii ch in
  if ((65 <=? n) && (n <=? 90))%nat then ascii_of_nat (n + 32) else ch.

Fixpoint lower (s : string) : string :=
  match s with
  | EmptyString => EmptyString
  | String ch s' => String (lower_ascii ch) (lower s')
  end.

(** ** The TensorFlow operations used by the module *)

Module tf.

Definition zeros1 (c : nat) : vec := repeat 0 c.
Definition ones1 (c : nat) : vec := repeat 1 c.

(** [tf.zeros(shape=[r, c])]. *)
Definition zeros (r c : nat) : mat := repeat (zeros1 c) r.

(** [tf.get_variable(name, shape=[r, c])]: the stored value, which has
    the requested shape; a stored value of another shape is rejected. *)
Definition get_variable (stored : mat) (r c : nat) : result mat :=
  if has_shape2 r c stored then Ok stored else Err ValueError.

(** [tf.nn.embedding_lookup(params, ids)]: row [id] of [params] for
    every id; an id outside [0, rows) is rejected. *)
Definition lookup_row (params : mat) (id : Z) : result vec :=
  if ((0 <=? id) && (id <? Z.of_nat (length params)))%Z
  then Ok (nth (Z.to_nat id) params [])
  else Err IndexError.

Definition embedding_lookup (params : mat) (ids : list (list Z)) : result tensor3 :=
  mapM (mapM (lookup_row params)) ids.

(** [tf.pad(x, [[0, 0], [before, 0], [0, 0]])]. *)
Definition pad_time (before : Z) (x : tensor3) : result tensor3 :=
  if (before <? 0)%Z then Err ValueError
  else Ok (map (fun s => zeros (Z.to_nat before) (channels x) ++ s) x).

(** [tf.expand_dims(x, axis=1)] and [tf.squeeze(x, axis=1)] on a rank-3
    and a rank-4 tensor. *)
Definition expand_dims1 (x : tensor3) : tensor4 := map (fun s => [s]) x.
Definition squeeze1 (x : tensor4) : tensor3 := map (fun l => hd [] l) x.

Definition mean (v : vec) : R := sum v / INR (length v).

(** The variance of [tf.nn.moments]: the mean of the squared distance to
    the mean. *)
Definition variance (v : vec) : R := mean (map (fun a => Rsqr (a - mean v)) v).

(** [tf.nn.moments(x, [axis], keep_dims=True)] for the two axes the
    module passes: the channel axis [-1], result of shape [n, t, 1], and
    the time axis [1], result of shape [n, 1, c]. *)
Definition moments (x : tensor3) (axis : Z) : tensor3 * tensor3 :=
  if (axis =? 1)%Z then
    let cs := seq 0 (channels x) in
    (map (fun s => [map (fun c => mean (column 0 c s)) cs]) x,
     map (fun s => [map (fun c => variance (column 0 c s)) cs]) x)
  else
    (map (map (fun v => [mean v])) x,
     map (map (fun v => [variance v])) x).

(** [tf.reduce_sum(x, -1, keep_dims=True)]. *)
Definition reduce_sum_last (x : tensor3) : tensor3 :=
  map (map (fun v => [sum v])) x.

(** [tf.rsqrt] on a positive argument.  At [y <= 0] float32 gives
    infinity or NaN, which the reals do not have: a statement that goes
    through [rsqrt] at such an argument says nothing about the code, so
    the value of [rsqrt] is used only where [0 < y]. *)
Definition rsqrt (y : R) : R := / sqrt y.

Definition sign (a : R) : R :=
  if Rlt_dec 0 a then 1 else if Rlt_dec a 0 then -1 else 0.

Definition relu (a : R) : R := Rmax a 0.

(** Variables of [tf.layers.batch_normalization], one entry per channel. *)
Record bn_vars : Type := {
  bn_gamma : vec;
  bn_beta : vec;
  moving_mean : vec;
  moving_variance : vec
}.

(** [tf.layers.batch_normalization(x, training, fused)] over the last
    axis of a rank-4 tensor, with its default [epsilon = 0.001]: the
    statistics of the batch while training, the stored moving statistics
    otherwise.  The fused and the plain kernels compute the same reals. *)
Definition batch_normalization (v : bn_vars) (training fused : bool) (x : tensor4) : tensor4 :=
  let rows := concat (concat x) in
  let cs := seq 0 (length (bn_gamma v)) in
  let m := if training then map (fun c => mean (column 0 c rows)) cs else moving_mean v in
  let s := if training then map (fun c => variance (column 0 c rows)) cs else moving_variance v in
  let inv := bcast Rmult (map (fun a => rsqrt (a + / 1000)) s) (bn_gamma v) in
  map (map (map (fun row =>
    bcast Rplus (bcast Rmult (bcast Rminus row m) inv) (bn_beta v)))) x.

(** Variables of [tf.layers.dense]: kernel of shape [in, units] and bias. *)
Record dense_vars : Type := {
  dense_kernel : mat;
  dense_bias : vec
}.

(** [tf.layers.dense(x, units, activation)] on the last axis. *)
Definition dense (v : dense_vars) (units : nat) (activation : R -> R) (x : tensor3) : tensor3 :=
  map (map (fun row =>
    map (fun u => activation (dot row (column 0 u (dense_kernel v)) + nth u (dense_bias v) 0))
        (seq 0 units))) x.

(** Variables of a convolution layer: kernel of shape [size, in, filters]
    for [conv1d], [1, size, filters, in] for [conv2d_transpose], and the
    bias. *)
Record conv_vars : Type := {
  kernel : list mat;
  bias : vec
}.

Record deconv_vars : Type := {
  t_kernel : list (list mat);
  t_bias : vec
}.

(** Output [o] at time [t] of a dilated cross-correlation of [s]. *)
Definition conv_at (k : list mat) (size rate : nat) (s : mat) (t o : nat) : R :=
  sum (map (fun j => dot (nth (t + j * rate) s []) (column 0 o (nth j k [])))
           (seq 0 size)).

(** Rows [0 .. n - 1] of the dilated cross-correlation of the sequence
    [s]. *)
Definition conv_rows (v : conv_vars) (use_bias : bool) (filters size rate : nat)
    (s : mat) (n : nat) : mat :=
  map (fun t =>
    map (fun o =>
      let y := conv_at (kernel v) size rate s t o in
      if use_bias then y + nth o (bias v) 0 else y)
    (seq 0 filters))
  (seq 0 n).

(** A [valid] dilated convolution: there is an output at [t] when the
    whole window [t, t + (size - 1) * rate] lies inside the input, so the
    time extent shrinks by the window span [(size - 1) * rate].  An input
    whose time extent does not exceed the span leaves no output position
    and is rejected. *)
Definition conv_valid (v : conv_vars) (use_bias : bool) (filters size rate : nat)
    (x : tensor3) : result tensor3 :=
  let span := ((size - 1) * rate)%nat in
  if (time_dim x <=? span)%nat then Err ShapeError
  else Ok (map (fun s => conv_rows v use_bias filters size rate s (length s - span)) x).

(** [tf.layers.conv1d(inputs, filters, kernel_size, dilation_rate,
    padding, use_bias)] with stride one.  [same] reads the input as if
    padded by the window span with zeros, the smaller half in front, and
    has one output per input position. *)
Definition layers_conv1d (v : conv_vars) (inputs : tensor3) (filters : nat)
    (kernel_size dilation_rate : Z) (padding : string) (use_bias : bool)
    : result tensor3 :=
  if ((kernel_size <? 1) || (dilation_rate <? 1))%Z then Err ValueError
  else
    let size := Z.to_nat kernel_size in
    let rate := Z.to_nat dilation_rate in
    let p := lower padding in
    if String.eqb p "valid" then
      conv_valid v use_bias filters size rate inputs
    else if String.eqb p "same" then
      let span := ((size - 1) * rate)%nat in
      let front := (span / 2)%nat in
      let c := channels inputs in
      Ok (map (fun s =>
            conv_rows v use_bias filters size rate
              (zeros front c ++ s ++ zeros (span - front) c) (length s)) inputs)
    else Err ValueError.

(** Output [o] at position [p] of a transposed convolution of [row]:
    input position [i] and kernel tap [j] contribute where
    [i * stride + j = p + front]. *)
Definition deconv_at (k : list mat) (size stride front : nat) (row : mat) (p o : nat) : R :=
  sum (map (fun i =>
    sum (map (fun j =>
      if (i * stride + j =? p + front)%nat
      then dot (nth i row []) (nth o (nth j k []) [])
      else 0) (seq 0 size))) (seq 0 (length row))).

(** [tf.layers.conv2d_transpose(inputs, filters, kernel_size=(1, size),
    strides=(1, stride), padding, use_bias)]: every row of the height
    axis is upsampled on its own.  The output width is
    [w * stride] for [same] and [w * stride + max (size - stride) 0] for
    [valid]. *)
Definition layers_conv2d_transpose (v : deconv_vars) (inputs : tensor4) (filters : nat)
    (size stride : Z) (padding : string) (use_bias : bool) : result tensor4 :=
  if ((size <? 1) || (stride <? 1))%Z then Err ValueError
  else
    let k := Z.to_nat size in
    let s := Z.to_nat stride in
    let p := lower padding in
    let run (front extra : nat) :=
      map (map (fun row : mat =>
        map (fun q =>
          map (fun o =>
            let y := deconv_at (hd [] (t_kernel v)) k s front row q o in
            if use_bias then y + nth o (t_bias v) 0 else y)
          (seq 0 filters))
        (seq 0 (length row * s + extra)))) inputs in
    if String.eqb p "same" then Ok (run ((k - s) / 2)%nat 0%nat)
    else if String.eqb p "valid" then Ok (run 0%nat (k - s)%nat)
    else Err ValueError.

(** [tf.layers.dropout(x, rate, training)].  [keep n t c] is the random
    draw for one element.  Outside training the input is returned.  While
    training, a rate outside [0, 1) is rejected, and at rate zero the
    input is returned. *)
Definition dropped (keep : nat -> nat -> nat -> bool) (rate : R) (x : tensor3) : tensor3 :=
  imap (fun n => imap (fun t => imap (fun c a =>
    if keep n t c then a / (1 - rate) else 0))) x.

Definition dropout (keep : nat -> nat -> nat -> bool) (rate : R) (training : bool)
    (x : tensor3) : result tensor3 :=
  if training then
    if Rle_dec 0 rate then
      if Rlt_dec rate 1 then
        if Req_dec_T rate 0 then Ok x else Ok (dropped keep rate x)
      else Err ValueError
    else Err ValueError
  else Ok x.

End tf.

(** ** [embed] *)

(** [stored] is the value of the variable [lookup_table]. *)
Definition embed (stored : mat) (inputs : list (list Z)) (vocab_size num_units : nat)
    (zero_pad : bool) : result tensor3 :=
  lookup_table <- tf.get_variable stored vocab_size num_units ;;
  let lookup_table :=
    if zero_pad then tf.zeros 1 num_units ++ skipn 1 lookup_table
    else lookup_table in
  tf.embedding_lookup lookup_table inputs.

(** The table [embed] looks ids up in (lines 38-40). *)
Definition effective_table (stored : mat) (num_units : nat) (zero_pad : bool) : mat :=
  if zero_pad then tf.zeros 1 num_units ++ skipn 1 stored else stored.

(** ** [normalize] *)

(** The learned shift and scale of the layer and instance modes, and the
    variables of the batch mode. *)
Record norm_vars : Type := {
  beta : vec;
  gamma : vec;
  bn : tf.bn_vars
}.

(** [type == s] for a [type] that is a string or [None]. *)
Definition type_is (type : option string) (s : string) : bool :=
  match type with
  | Some t => String.eqb t s
  | None => false
  end.

(** The tensor [normalized] before masking, scale and shift (lines 103
    and 106 of the source). *)
Definition normalized_at (inputs : tensor3) (reduction_axis : Z) (epsilon : R) : tensor3 :=
  let '(mean, variance) := tf.moments inputs reduction_axis in
  bcast3 Rmult (bcast3 Rminus inputs mean)
               (map3 tf.rsqrt (map3 (fun a => a + epsilon) variance)).

Definition normalize (v : norm_vars) (inputs : tensor3) (type : option string)
    (epsilon : R) (training masking : bool) : tensor3 :=
  if type_is type "bn" then
    (* the rank-3 path: one singleton axis in, the same axis out *)
    let inputs := tf.expand_dims1 inputs in
    let outputs := tf.batch_normalization (bn v) training true inputs in
    tf.squeeze1 outputs
  else if type_is type "ln" || type_is type "ins" then
    let reduction_axis := if type_is type "ln" then (-1)%Z else 1%Z in
    let normalized := normalized_at inputs reduction_axis epsilon in
    let normalized :=
      if masking then
        let masks := map3 tf.sign (map3 Rabs (tf.reduce_sum_last inputs)) in
        bcast3 Rmult normalized masks
      else normalized in
    bcast3 Rplus (bcast3 Rmult [[gamma v]] normalized) [[beta v]]
  else inputs.

(** ** [highwaynet] *)

Record highway_vars : Type := {
  dense1 : tf.dense_vars;
  dense2 : tf.dense_vars
}.

(** Two extents of one axis can be combined element-wise. *)
Definition compatible (a b : nat) : bool :=
  ((a =? b) || (a =? 1) || (b =? 1))%nat.

Section Highway.

(** [tf.nn.sigmoid]: the float32 kernel reaches 0 and 1 exactly for
    large arguments, which the real logistic function never does, so the
    gate activation is left abstract. *)
Variable sigmoid : R -> R.

Definition highwaynet (v : highway_vars) (inputs : tensor3) (num_units : option nat)
    : result tensor3 :=
  let num_units :=
    match num_units with
    | None | Some O => channels inputs
    | Some n => n
    end in
  let H := tf.dense (dense1 v) num_units tf.relu inputs in
  let T := tf.dense (dense2 v) num_units sigmoid inputs in
  let C := map3 (fun t => 1 - t) T in
  if compatible (channels inputs) num_units
  then Ok (bcast3 Rplus (bcast3 Rmult H T) (bcast3 Rmult inputs C))
  else Err ShapeError.

End Highway.

(** A gate activation that saturates: the clamp of [a / 4 + 1 / 2] to
    the interval [0, 1].  It instantiates [sigmoid] in the examples. *)
Definition hard_sigmoid (a : R) : R := Rmax 0 (Rmin 1 (a / 4 + / 2)).

(** Element [i, j, k] of a rank-3 tensor. *)
Definition elt (x : tensor3) (i j k : nat) : R :=
  nth k (nth j (nth i x []) []) 0.

(** ** [conv1d] *)

(** Two tensors are identical at all time positions in [0, t]. *)
Definition agree_upto (t : nat) (x y : tensor3) : Prop :=
  map (firstn (S t)) x = map (firstn (S t)) y.

(** Every sequence of the batch has time length [L]. *)
Definition time_length (L : nat) (x : tensor3) : Prop :=
  Forall (fun s : mat => length s = L) x.

Record conv1d_vars : Type := {
  conv : tf.conv_vars;
  norm : norm_vars
}.

(** Lines 169-183: the optional causal pre-padding and the convolution. *)
Definition conv1d_tensor (v : conv1d_vars) (inputs : tensor3) (filters : option nat)
    (size rate : Z) (padding : string) (use_bias : bool) : result tensor3 :=
  padded <-
    (if String.eqb (lower padding) "causal" then
       (* pre-padding for causality *)
       let pad_len := ((size - 1) * rate)%Z in
       inputs <- tf.pad_time pad_len inputs ;;
       Ok (inputs, "valid"%string)
     else Ok (inputs, padding)) ;;
  let '(inputs, padding) := padded in
  let filters :=
    match filters with
    | None => channels inputs
    | Some f => f
    end in
  tf.layers_conv1d (conv v) inputs filters size rate padding use_bias.

(** The [valid] convolution of the sequence [s] padded in front with
    [(size - 1) * rate] zero rows of width [c], written out for the
    proofs. *)
Definition causal_rows (v : tf.conv_vars) (use_bias : bool) (filters size rate c : nat)
    (s : mat) : mat :=
  map (fun t =>
    map (fun o =>
      let y := tf.conv_at (tf.kernel v) size rate
                 (tf.zeros ((size - 1) * rate) c ++ s) t o in
      if use_bias then y + nth o (tf.bias v) 0 else y)
    (seq 0 filters))
  (seq 0 (length s)).

Definition conv1d (v : conv1d_vars) (keep : nat -> nat -> nat -> bool)
    (inputs : tensor3) (filters : option nat) (size rate : Z) (padding : string)
    (dropout_rate : R) (use_bias : bool) (norm_type : option string)
    (activation_fn : option (tensor3 -> tensor3)) (training : bool)
    : result tensor3 :=
  tensor <- conv1d_tensor v inputs filters size rate padding use_bias ;;
  let tensor := normalize (norm v) tensor norm_type (/ 100000000) training false in
  let tensor :=
    match activation_fn with
    | Some f => f tensor
    | None => tensor
    end in
  tf.dropout keep dropout_rate training tensor.

(** ** [conv1d_transpose] *)

Record conv1d_transpose_vars : Type := {
  deconv : tf.deconv_vars;
  tnorm : norm_vars
}.

(** Lines 206-216: the transposed convolution on the degenerate 2-D
    signal. *)
Definition conv1d_transpose_tensor (v : conv1d_transpose_vars) (inputs : tensor3)
    (filters : option nat) (size stride : Z) (padding : string) (use_bias : bool)
    : result tensor3 :=
  let filters :=
    match filters with
    | None => channels inputs
    | Some f => f
    end in
  let inputs := tf.expand_dims1 inputs in
  tensor <- tf.layers_conv2d_transpose (deconv v) inputs filters size stride
              padding use_bias ;;
  Ok (tf.squeeze1 tensor).

Definition conv1d_transpose (v : conv1d_transpose_vars) (keep : nat -> nat -> nat -> bool)
    (inputs : tensor3) (filters : option nat) (size stride : Z) (padding : string)
    (dropout_rate : R) (norm_type : option string)
    (activation : option (tensor3 -> tensor3)) (training use_bias : bool)
    : result tensor3 :=
  tensor <- conv1d_transpose_tensor v inputs filters size stride padding use_bias ;;
  let tensor := normalize (tnorm v) tensor norm_type (/ 100000000) training false in
  let tensor :=
    match activation with
    | Some f => f tensor
    | None => tensor
    end in
  tf.dropout keep dropout_rate training tensor.

(** * Properties *)

(** ** The error monad *)

Lemma mapM_Ok_Forall2 {A B : Type} (f : A -> result B) (l : list A) (out : list B) :
  mapM f l = Ok out <-> Forall2 (fun a b => f a = Ok b) l out.
Proof.
  revert out; induction l as [|a l IH]; intros out; simpl.
  - split; intros H.
    + injection H as <-. constructor.
    + inversion H. reflexivity.
  - split; intros H.
    + destruct (f a) as [b|e] eqn:Ea; simpl in H; [|discriminate].
      destruct (mapM f l) as [bs|e] eqn:El; simpl in H; [|discriminate].
      injection H as <-. constructor; [assumption|]. apply IH. reflexivity.
    + inversion H as [|a' b l' bs Hab Hl]; subst.
      rewrite Hab; simpl. apply IH in Hl. rewrite Hl. reflexivity.
Qed.

Lemma mapM_Err_Exists {A B : Type} (f : A -> result B) (l : list A) (e : error) :
  mapM f l = Err e -> Exists (fun a => f a = Err e) l.
Proof.
  induction l as [|a l IH]; simpl; intros H; [discriminate|].
  destruct (f a) as [b|e'] eqn:Ea; simpl in H.
  - destruct (mapM f l) as [bs|e'] eqn:El; simpl in H; [discriminate|].
    right. apply IH. assumption.
  - left. congruence.
Qed.

Lemma mapM_Exists_Err {A B : Type} (f : A -> result B) (l : list A) (e : error) :
  (forall a e', f a = Err e' -> e' = e) ->
  Exists (fun a => f a = Err e) l -> mapM f l = Err e.
Proof.
  intros Hone H. induction H as [a l Ha|a l _ IH]; simpl.
  - rewrite Ha. reflexivity.
  - destruct (f a) as [b|e'] eqn:Ea; simpl.
    + rewrite IH. reflexivity.
    + f_equal. eapply Hone. eassumption.
Qed.

Lemma mapM_total {A B : Type} (f : A -> result B) (l : list A) :
  Forall (fun a => exists b, f a = Ok b) l -> exists out, mapM f l = Ok out.
Proof.
  induction 1 as [|a l [b Hb] _ [bs IH]]; simpl.
  - eexists; reflexivity.
  - rewrite Hb, IH. simpl. eexists; reflexivity.
Qed.

(** ** [embed] *)

Lemma has_shape2_spec (r c : nat) (m : mat) :
  has_shape2 r c m = true <->
  length m = r /\ Forall (fun v => length v = c) m.
Proof.
  unfold has_shape2. rewrite andb_true_iff, Nat.eqb_eq, forallb_forall, Forall_forall.
  split; intros [H1 H2]; split; try assumption; intros v Hv.
  - apply Nat.eqb_eq, H2, Hv.
  - apply Nat.eqb_eq, H2, Hv.
Qed.

Lemma embed_unfold (stored : mat) (inputs : list (list Z)) (vocab_size num_units : nat)
    (zero_pad : bool) :
  has_shape2 vocab_size num_units stored = true ->
  embed stored inputs vocab_size num_units zero_pad =
  tf.embedding_lookup (effective_table stored num_units zero_pad) inputs.
Proof.
  intros H. unfold embed, tf.get_variable. rewrite H. reflexivity.
Qed.

Lemma effective_table_length (stored : mat) (vocab_size num_units : nat) (zero_pad : bool) :
  has_shape2 vocab_size num_units stored = true ->
  (zero_pad = true -> (1 <= vocab_size)%nat) ->
  length (effective_table stored num_units zero_pad) = vocab_size.
Proof.
  intros H Hv. apply has_shape2_spec in H as [Hl _].
  unfold effective_table. destruct zero_pad; [|assumption].
  specialize (Hv eq_refl). unfold tf.zeros.
  rewrite length_app, repeat_length, length_skipn. lia.
Qed.

Lemma effective_table_rows (stored : mat) (vocab_size num_units : nat) (zero_pad : bool) :
  has_shape2 vocab_size num_units stored = true ->
  Forall (fun v => length v = num_units) (effective_table stored num_units zero_pad).
Proof.
  intros H. apply has_shape2_spec in H as [_ Hr].
  unfold effective_table. destruct zero_pad; [|assumption].
  simpl. constructor.
  - apply repeat_length.
  - rewrite Forall_forall in *. intros v Hv. apply Hr.
    destruct stored; simpl in Hv; [contradiction|]. right. assumption.
Qed.

Lemma lookup_row_Ok (params : mat) (id : Z) :
  (0 <= id < Z.of_nat (length params))%Z ->
  tf.lookup_row params id = Ok (nth (Z.to_nat id) params []).
Proof.
  intros H. unfold tf.lookup_row.
  destruct (Z.leb_spec 0 id); [|lia]. destruct (Z.ltb_spec id (Z.of_nat (length params))); [|lia].
  reflexivity.
Qed.

Lemma lookup_row_Err (params : mat) (id : Z) :
  ~ (0 <= id < Z.of_nat (length params))%Z ->
  tf.lookup_row params id = Err IndexError.
Proof.
  intros H. unfold tf.lookup_row.
  destruct (Z.leb_spec 0 id); simpl; [|reflexivity].
  destruct (Z.ltb_spec id (Z.of_nat (length params))); [lia|reflexivity].
Qed.

Lemma lookup_row_cases (params : mat) (id : Z) :
  {(0 <= id < Z.of_nat (length params))%Z} + {~ (0 <= id < Z.of_nat (length params))%Z}.
Proof.
  destruct (Z_le_dec 0 id); [|right; lia].
  destruct (Z_lt_dec id (Z.of_nat (length params))); [left|right]; lia.
Qed.

Lemma lookup_row_only_IndexError (params : mat) (id : Z) (e : error) :
  tf.lookup_row params id = Err e -> e = IndexError.
Proof.
  unfold tf.lookup_row. destruct (_ && _)%bool; congruence.
Qed.

Lemma embedding_lookup_Err_iff (params : mat) (ids : list (list Z)) :
  tf.embedding_lookup params ids = Err IndexError <->
  Exists (Exists (fun id => ~ (0 <= id < Z.of_nat (length params))%Z)) ids.
Proof.
  unfold tf.embedding_lookup. split.
  - intros H. apply mapM_Err_Exists in H.
    eapply Exists_impl; [|exact H]. intros row Hrow; simpl in Hrow.
    apply mapM_Err_Exists in Hrow.
    eapply Exists_impl; [|exact Hrow]. intros id Hid; simpl in Hid.
    destruct (lookup_row_cases params id) as [Hin|Hout]; [|assumption].
    rewrite lookup_row_Ok in Hid by assumption. discriminate.
  - intros H. apply mapM_Exists_Err.
    + intros row e He. apply mapM_Err_Exists in He.
      apply Exists_exists in He as [id [_ Hid]].
      eapply lookup_row_only_IndexError; eassumption.
    + eapply Exists_impl; [|exact H]. intros row Hrow; simpl in Hrow.
      apply mapM_Exists_Err.
      * intros id e. apply lookup_row_only_IndexError.
      * eapply Exists_impl; [|exact Hrow]. intros id Hid. apply lookup_row_Err, Hid.
Qed.

Lemma embedding_lookup_Ok (params : mat) (ids : list (list Z)) (num_units : nat) :
  Forall (fun v => length v = num_units) params ->
  Forall (Forall (fun id => (0 <= id < Z.of_nat (length params))%Z)) ids ->
  exists out,
    tf.embedding_lookup params ids = Ok out /\
    Forall2 (Forall2 (fun (_ : Z) (v : vec) => length v = num_units)) ids out.
Proof.
  intros Hrows Hids. unfold tf.embedding_lookup.
  induction Hids as [|row ids Hrow _ IH]; simpl.
  - eexists; split; [reflexivity|constructor].
  - destruct IH as [out [Hout Hshape]]. rewrite Hout.
    assert (exists o, mapM (tf.lookup_row params) row = Ok o /\
                      Forall2 (fun (_ : Z) (v : vec) => length v = num_units) row o)
      as [o [Ho Hos]].
    { clear -Hrow Hrows. induction Hrow as [|id row Hid _ IH]; simpl.
      - eexists; split; [reflexivity|constructor].
      - destruct IH as [o [Ho Hos]]. rewrite lookup_row_Ok, Ho by assumption. simpl.
        eexists; split; [reflexivity|]. constructor; [|assumption].
        rewrite Forall_forall in Hrows. apply Hrows, nth_In. lia. }
    rewrite Ho. simpl. eexists; split; [reflexivity|]. constructor; assumption.
Qed.

Lemma embedding_lookup_single (params : mat) (id : Z) :
  tf.embedding_lookup params [[id]] = (r <- tf.lookup_row params id ;; Ok [[r]]).
Proof.
  unfold tf.embedding_lookup. simpl. destruct (tf.lookup_row params id); reflexivity.
Qed.

(** C2. With [zero_pad] the table [embed] reads is a fresh zero row
    followed by the stored rows [1 .. vocab_size - 1], whatever the stored
    table holds: id [0] is mapped to the zero vector of length
    [num_units], and an id [1 <= id < vocab_size] to the stored row
    [id]. *)
Theorem embed_zero_pad (stored : mat) (vocab_size num_units : nat) :
  has_shape2 vocab_size num_units stored = true ->
  effective_table stored num_units true = repeat 0 num_units :: skipn 1 stored /\
  embed stored [[0%Z]] vocab_size num_units true = Ok [[repeat 0 num_units]] /\
  forall id : nat, (1 <= id < vocab_size)%nat ->
    embed stored [[Z.of_nat id]] vocab_size num_units true = Ok [[nth id stored []]].
Proof.
  intros Hs. split; [reflexivity|]. split.
  - rewrite embed_unfold by assumption. reflexivity.
  - intros id Hid. rewrite embed_unfold by assumption.
    assert (Hlen : length (effective_table stored num_units true) = vocab_size).
    { apply effective_table_length; [assumption|intros; lia]. }
    rewrite embedding_lookup_single, lookup_row_Ok by (rewrite Hlen; lia).
    simpl. rewrite Nat2Z.id. destruct id as [|id]; [lia|].
    simpl. destruct stored; [destruct id|]; reflexivity.
Qed.

Lemma embed_zero_pad_witness :
  embed [[5; 7]; [1; 2]; [3; 4]] [[0%Z]] 3 2 true = Ok [[[0; 0]]] /\
  embed [[5; 7]; [1; 2]; [3; 4]] [[2%Z]] 3 2 true = Ok [[[3; 4]]].
Proof.
  destruct (embed_zero_pad [[5; 7]; [1; 2]; [3; 4]] 3 2 eq_refl) as [_ [H0 Hid]].
  split; [exact H0|]. apply (Hid 2%nat). lia.
Defined.

(** C9, as amended.  For a vocabulary of at least one row, or without
    [zero_pad], [embed] fails with [IndexError] exactly when some id lies
    outside [0, vocab_size); when every id lies inside, it returns a
    tensor with one vector of length [num_units] per id. *)
Theorem embed_index_error (stored : mat) (inputs : list (list Z))
    (vocab_size num_units : nat) (zero_pad : bool) :
  has_shape2 vocab_size num_units stored = true ->
  (zero_pad = true -> (1 <= vocab_size)%nat) ->
  (embed stored inputs vocab_size num_units zero_pad = Err IndexError <->
   Exists (Exists (fun id => ~ (0 <= id < Z.of_nat vocab_size)%Z)) inputs) /\
  (Forall (Forall (fun id => (0 <= id < Z.of_nat vocab_size)%Z)) inputs ->
   exists out,
     embed stored inputs vocab_size num_units zero_pad = Ok out /\
     Forall2 (Forall2 (fun (_ : Z) (v : vec) => length v = num_units)) inputs out).
Proof.
  intros Hs Hv. rewrite embed_unfold by assumption.
  pose proof (effective_table_length stored vocab_size num_units zero_pad Hs Hv) as Hlen.
  split.
  - rewrite embedding_lookup_Err_iff, Hlen. reflexivity.
  - intros Hin. apply embedding_lookup_Ok.
    + apply (effective_table_rows stored vocab_size). assumption.
    + rewrite Hlen. assumption.
Qed.

Lemma embed_index_error_witness :
  (embed [[5; 7]; [1; 2]] [[0%Z; 2%Z]] 2 2 true = Err IndexError <->
   Exists (Exists (fun id => ~ (0 <= id < Z.of_nat 2)%Z)) [[0%Z; 2%Z]]) /\
  (Forall (Forall (fun id => (0 <= id < Z.of_nat 2)%Z)) [[1%Z; 0%Z]] ->
   exists out,
     embed [[5; 7]; [1; 2]] [[1%Z; 0%Z]] 2 2 true = Ok out /\
     Forall2 (Forall2 (fun (_ : Z) (v : vec) => length v = 2%nat)) [[1%Z; 0%Z]] out).
Proof.
  split.
  - apply (embed_index_error [[5; 7]; [1; 2]] [[0%Z; 2%Z]] 2 2 true eq_refl).
    intros _. lia.
  - apply (embed_index_error [[5; 7]; [1; 2]] [[1%Z; 0%Z]] 2 2 true eq_refl).
    intros _. lia.
Defined.

(** C9, as stated, fails for an empty vocabulary with [zero_pad]: the
    fresh zero row makes a table of one row, so id [0] is looked up
    although it lies outside [0, 0). *)
Lemma embed_index_error_counterexample :
  has_shape2 0 2 [] = true /\
  embed [] [[0%Z]] 0 2 true = Ok [[[0; 0]]] /\
  ~ (embed [] [[0%Z]] 0 2 true = Err IndexError <->
     Exists (Exists (fun id => ~ (0 <= id < Z.of_nat 0)%Z)) [[0%Z]]).
Proof.
  split; [reflexivity|]. split; [reflexivity|].
  intros [_ H].
  assert (E : embed [] [[0%Z]] 0 2 true = Err IndexError).
  { apply H. left. left. simpl. lia. }
  discriminate E.
Qed.

(** ** Broadcasting *)

Lemma bcast_singleton_l {A B C : Type} (f : A -> B -> C) (x : A) (b : list B) :
  bcast f [x] b = map (f x) b.
Proof. reflexivity. Qed.

Lemma bcast_singleton_r {A B C : Type} (f : A -> B -> C) (a : list A) (y : B) :
  bcast f a [y] = map (fun x => f x y) a.
Proof. destruct a as [|x [|x' a]]; reflexivity. Qed.

Lemma map2_map_map {A B C D : Type} (f : B -> C -> D) (g : A -> B) (h : A -> C)
    (l : list A) :
  map2 f (map g l) (map h l) = map (fun a => f (g a) (h a)) l.
Proof. induction l as [|a l IH]; simpl; [|rewrite IH]; reflexivity. Qed.

Lemma bcast_map_map {A B C D : Type} (f : B -> C -> D) (g : A -> B) (h : A -> C)
    (l : list A) :
  bcast f (map g l) (map h l) = map (fun a => f (g a) (h a)) l.
Proof.
  destruct l as [|a [|a' l]]; try reflexivity.
  unfold bcast. rewrite <- map2_map_map. reflexivity.
Qed.

Lemma bcast_map_l {A B C : Type} (f : A -> B -> C) (h : A -> B) (l : list A) :
  bcast f l (map h l) = map (fun a => f a (h a)) l.
Proof.
  rewrite <- (map_id l) at 1. rewrite bcast_map_map. reflexivity.
Qed.

Lemma bcast_same_length {A B C : Type} (f : A -> B -> C) (a : list A) (b : list B) :
  length a = length b -> bcast f a b = map2 f a b.
Proof.
  destruct a as [|x [|x' a]], b as [|y [|y' b]]; simpl; intros H;
    try discriminate; reflexivity.
Qed.

Lemma map2_length {A B C : Type} (f : A -> B -> C) (a : list A) (b : list B) :
  length a = length b -> length (map2 f a b) = length a.
Proof.
  revert b; induction a as [|x a IH]; intros [|y b] H; simpl in *;
    try discriminate; [reflexivity|]. f_equal. apply IH. lia.
Qed.

Lemma bcast_length {A B C : Type} (f : A -> B -> C) (a : list A) (b : list B) :
  length a = length b -> length (bcast f a b) = length a.
Proof.
  intros H. rewrite bcast_same_length by assumption. apply map2_length, H.
Qed.

Lemma nth_map_lt {A B : Type} (f : A -> B) (l : list A) (i : nat) (d : A) (d' : B) :
  (i < length l)%nat -> nth i (map f l) d' = f (nth i l d).
Proof.
  intros H. rewrite (nth_indep _ d' (f d)) by (rewrite length_map; assumption).
  apply map_nth.
Qed.

Lemma map2_mult_zeros (g : vec) :
  map2 Rmult g (repeat 0 (length g)) = repeat 0 (length g).
Proof.
  induction g as [|a g IH]; simpl; [reflexivity|]. rewrite IH. f_equal. lra.
Qed.

Lemma map2_plus_zeros (b : vec) :
  map2 Rplus (repeat 0 (length b)) b = b.
Proof.
  induction b as [|a b IH]; simpl; [reflexivity|]. rewrite IH. f_equal. lra.
Qed.

Lemma map_mult_zero (v : vec) :
  map (fun a => a * 0) v = repeat 0 (length v).
Proof.
  induction v as [|a v IH]; simpl; [reflexivity|]. rewrite IH. f_equal. lra.
Qed.

(** ** Shapes *)

Lemma shape3_nth (n t c : nat) (x : tensor3) (i j : nat) :
  shape3 n t c x -> (i < n)%nat -> (j < t)%nat ->
  length (nth i x []) = t /\ length (nth j (nth i x []) []) = c.
Proof.
  intros [Hn Hx] Hi Hj. rewrite Forall_forall in Hx.
  destruct (Hx (nth i x [])) as [Ht Hs]; [apply nth_In; lia|].
  split; [assumption|]. rewrite Forall_forall in Hs. apply Hs, nth_In. lia.
Qed.

Lemma shape3_channels (n t c : nat) (x : tensor3) :
  shape3 n t c x -> (0 < n)%nat -> (0 < t)%nat -> channels x = c.
Proof.
  intros H Hn Ht. destruct (shape3_nth n t c x 0 0 H Hn Ht) as [_ Hc].
  destruct H as [Hl Hx].
  destruct x as [|[|v s] x]; simpl in *; try lia.
Qed.

(** ** [normalize] *)

Lemma bcast3_last (op : R -> R -> R) (F : mat -> vec -> vec) (h : vec -> R) (x : tensor3) :
  bcast3 op (map (fun s => map (F s) s) x) (map (map (fun r => [h r])) x) =
  map (fun s => map (fun r => map (fun a => op a (h r)) (F s r)) s) x.
Proof.
  unfold bcast3. rewrite bcast_map_map. apply map_ext; intros s.
  rewrite bcast_map_map. apply map_ext; intros r. apply bcast_singleton_r.
Qed.

Lemma bcast3_time (op : R -> R -> R) (F : mat -> vec -> vec) (g : mat -> vec) (x : tensor3) :
  bcast3 op (map (fun s => map (F s) s) x) (map (fun s => [g s]) x) =
  map (fun s => map (fun r => bcast op (F s r) (g s)) s) x.
Proof.
  unfold bcast3. rewrite bcast_map_map. apply map_ext; intros s.
  rewrite bcast_singleton_r, map_map. reflexivity.
Qed.

Lemma bcast3_scale (op : R -> R -> R) (g : vec) (y : tensor3) :
  bcast3 op [[g]] y = map (map (bcast op g)) y.
Proof. reflexivity. Qed.

Lemma bcast3_shift (op : R -> R -> R) (b : vec) (y : tensor3) :
  bcast3 op y [[b]] = map (map (fun r => bcast op r b)) y.
Proof.
  unfold bcast3. rewrite bcast_singleton_r. apply map_ext; intros s.
  apply bcast_singleton_r.
Qed.

Lemma tensor3_as_map (x : tensor3) :
  x = map (fun s : mat => map (fun r : vec => r) s) x.
Proof.
  induction x as [|s x IH]; simpl; [reflexivity|].
  rewrite map_id, <- IH. reflexivity.
Qed.

Lemma map3_keep_dims (f g : R -> R) (h : vec -> R) (x : tensor3) :
  map (map (map f)) (map (map (map g)) (map (map (fun r => [h r])) x)) =
  map (map (fun r => [f (g (h r))])) x.
Proof.
  rewrite !map_map. apply map_ext; intros s. rewrite !map_map. reflexivity.
Qed.

(** The layer mode normalises every position on its own. *)
Lemma normalized_at_layer (x : tensor3) (eps : R) :
  normalized_at x (-1)%Z eps =
  map (fun s => map (fun r =>
    map (fun a => (a - tf.mean r) * tf.rsqrt (tf.variance r + eps)) r) s) x.
Proof.
  unfold normalized_at, tf.moments. simpl. unfold map3.
  rewrite (tensor3_as_map x) at 1. rewrite bcast3_last.
  rewrite (map3_keep_dims tf.rsqrt (fun a => a + eps) tf.variance).
  rewrite bcast3_last. apply map_ext; intros s. apply map_ext; intros r.
  rewrite map_map. reflexivity.
Qed.

(** The instance mode normalises every channel over the time axis. *)
Lemma normalized_at_instance (x : tensor3) (eps : R) :
  normalized_at x 1%Z eps =
  map (fun s => map (fun r =>
    bcast Rmult
      (bcast Rminus r (map (fun c => tf.mean (column 0 c s)) (seq 0 (channels x))))
      (map (fun c => tf.rsqrt (tf.variance (column 0 c s) + eps)) (seq 0 (channels x))))
    s) x.
Proof.
  unfold normalized_at, tf.moments. simpl. unfold map3.
  rewrite (tensor3_as_map x) at 1. rewrite bcast3_time.
  replace (map (map (map tf.rsqrt)) _) with
    (map (fun s : mat =>
       [map (fun c => tf.rsqrt (tf.variance (column 0 c s) + eps)) (seq 0 (channels x))]) x).
  2:{ rewrite !map_map. apply map_ext; intros s. simpl. rewrite !map_map. reflexivity. }
  rewrite bcast3_time. reflexivity.
Qed.

Lemma masked_affine (g b : vec) (F : mat -> vec -> vec) (x : tensor3) :
  bcast3 Rplus
    (bcast3 Rmult [[g]]
       (bcast3 Rmult (map (fun s => map (F s) s) x)
          (map3 tf.sign (map3 Rabs (tf.reduce_sum_last x))))) [[b]] =
  map (fun s => map (fun r =>
    bcast Rplus
      (bcast Rmult g (map (fun a => a * tf.sign (Rabs (sum r))) (F s r))) b) s) x.
Proof.
  unfold map3, tf.reduce_sum_last.
  rewrite (map3_keep_dims tf.sign Rabs sum).
  rewrite bcast3_last, bcast3_scale, bcast3_shift, !map_map.
  apply map_ext; intros s. rewrite !map_map. reflexivity.
Qed.

Lemma sign_abs_zero : tf.sign (Rabs 0) = 0.
Proof.
  rewrite Rabs_R0. unfold tf.sign.
  destruct (Rlt_dec 0 0) as [H|_]; [lra|]. destruct (Rlt_dec 0 0) as [H|_]; [lra|].
  reflexivity.
Qed.

(** A row whose mask is zero comes out as the shift. *)
Lemma masked_row (g b y : vec) (r : vec) :
  sum r = 0 -> length g = length y -> length b = length y ->
  bcast Rplus (bcast Rmult g (map (fun a => a * tf.sign (Rabs (sum r))) y)) b = b.
Proof.
  intros Hr Hg Hb. rewrite Hr, sign_abs_zero, map_mult_zero.
  rewrite (bcast_same_length Rmult) by (rewrite repeat_length; assumption).
  rewrite <- Hg, map2_mult_zeros.
  rewrite bcast_same_length by (rewrite repeat_length; congruence).
  rewrite Hg, <- Hb. apply map2_plus_zeros.
Qed.

Lemma type_is_eq (t s : string) : type_is (Some t) s = true <-> t = s.
Proof. simpl. apply String.eqb_eq. Qed.

Lemma normalize_layer_instance (v : norm_vars) (x : tensor3) (type : option string)
    (eps : R) (training masking : bool) :
  type = Some "ln"%string \/ type = Some "ins"%string ->
  normalize v x type eps training masking =
  let normalized :=
    normalized_at x (if type_is type "ln" then (-1)%Z else 1%Z) eps in
  bcast3 Rplus
    (bcast3 Rmult [[gamma v]]
       (if masking
        then bcast3 Rmult normalized (map3 tf.sign (map3 Rabs (tf.reduce_sum_last x)))
        else normalized)) [[beta v]].
Proof. intros [-> | ->]; reflexivity. Qed.

(** With masking, in the layer and the instance mode, the output at a
    position whose input sums to zero is the shift [beta]: an equation of
    the reals, used for the code where [epsilon] is positive. *)
Lemma normalize_masked_shift (v : norm_vars) (x : tensor3) (type : option string)
    (eps : R) (training : bool) (n t c i j : nat) :
  type = Some "ln"%string \/ type = Some "ins"%string ->
  shape3 n t c x -> length (gamma v) = c -> length (beta v) = c ->
  (i < n)%nat -> (j < t)%nat ->
  sum (nth j (nth i x []) []) = 0 ->
  nth j (nth i (normalize v x type eps training true) []) [] = beta v.
Proof.
  intros Ht Hx Hg Hb Hi Hj Hs.
  destruct (shape3_nth n t c x i j Hx Hi Hj) as [Hlt Hlc].
  assert (Hch : channels x = c) by (apply (shape3_channels n t c); assumption || lia).
  assert (Hn : length x = n) by apply Hx.
  rewrite normalize_layer_instance by assumption.
  destruct Ht as [-> | ->]; cbv zeta;
    match goal with |- context [type_is ?a ?b] =>
      let e := eval vm_compute in (type_is a b) in change (type_is a b) with e
    end; cbv iota.
  - rewrite normalized_at_layer.
    rewrite (masked_affine _ _ (fun _ r =>
      map (fun a => (a - tf.mean r) * tf.rsqrt (tf.variance r + eps)) r)).
    rewrite (nth_map_lt _ x i []) by lia.
    rewrite (nth_map_lt _ (nth i x []) j []) by lia.
    apply masked_row; [assumption| |]; rewrite length_map; congruence.
  - rewrite normalized_at_instance.
    rewrite (masked_affine _ _ (fun s r =>
      bcast Rmult
        (bcast Rminus r (map (fun c => tf.mean (column 0 c s)) (seq 0 (channels x))))
        (map (fun c => tf.rsqrt (tf.variance (column 0 c s) + eps))
           (seq 0 (channels x))))).
    rewrite (nth_map_lt _ x i []) by lia.
    rewrite (nth_map_lt _ (nth i x []) j []) by lia.
    assert (Hy : forall (f g : nat -> R),
      length (bcast Rmult
                (bcast Rminus (nth j (nth i x []) []) (map f (seq 0 (channels x))))
                (map g (seq 0 (channels x)))) = c).
    { intros f g. rewrite !bcast_length; rewrite ?bcast_length;
        rewrite ?length_map, ?length_seq; congruence. }
    apply masked_row; [assumption| |]; rewrite Hy; assumption.
Qed.

(** C8. A [type] that is none of ["bn"], ["ln"] and ["ins"], [None]
    included, makes [normalize] return its input unchanged; no error is
    raised. *)
Theorem normalize_unrecognized (v : norm_vars) (x : tensor3) (type : option string)
    (eps : R) (training masking : bool) :
  type <> Some "bn"%string -> type <> Some "ln"%string -> type <> Some "ins"%string ->
  normalize v x type eps training masking = x.
Proof.
  intros Hbn Hln Hins. unfold normalize.
  assert (E : forall s, type <> Some s -> type_is type s = false).
  { intros s Hs. destruct type as [t|]; [|reflexivity]. simpl.
    apply String.eqb_neq. congruence. }
  rewrite (E "bn"%string), (E "ln"%string), (E "ins"%string) by assumption.
  reflexivity.
Qed.

Lemma normalize_unrecognized_witness :
  let v := {| beta := [0]; gamma := [1]; bn := tf.Build_bn_vars [1] [0] [0] [1] |} in
  normalize v [[[1; 2]]] None (/ 100000000) true true = [[[1; 2]]] /\
  normalize v [[[1; 2]]] (Some "layer"%string) (/ 100000000) true true = [[[1; 2]]] /\
  normalize v [[[1; 2]]] (Some "BN"%string) (/ 100000000) true true = [[[1; 2]]].
Proof.
  intros v. split; [|split]; apply normalize_unrecognized; discriminate.
Defined.

(** C10. With masking and a positive [epsilon], in the layer and the
    instance mode, the mask multiplies the normalised tensor before scale
    and shift: the output at a position whose input sums to zero is the
    shift [beta], so it is the zero vector exactly when [beta] is. *)
Theorem normalize_mask_before_shift (v : norm_vars) (x : tensor3) (type : option string)
    (eps : R) (training : bool) (n t c i j : nat) :
  0 < eps ->
  type = Some "ln"%string \/ type = Some "ins"%string ->
  shape3 n t c x -> length (gamma v) = c -> length (beta v) = c ->
  (i < n)%nat -> (j < t)%nat ->
  sum (nth j (nth i x []) []) = 0 ->
  nth j (nth i (normalize v x type eps training true) []) [] = beta v /\
  (nth j (nth i (normalize v x type eps training true) []) [] = repeat 0 c <->
   beta v = repeat 0 c).
Proof.
  intros Heps Ht Hx Hg Hb Hi Hj Hs.
  rewrite (normalize_masked_shift v x type eps training n t c i j) by assumption.
  split; reflexivity.
Qed.

Lemma shape3_example : shape3 1 2 2 [[[1; -1]; [2; 3]]].
Proof.
  split; [reflexivity|]. repeat constructor.
Defined.

Lemma normalize_mask_before_shift_witness :
  let v := {| beta := [5; 7]; gamma := [2; 3]; bn := tf.Build_bn_vars [] [] [] [] |} in
  let out := normalize v [[[1; -1]; [2; 3]]] (Some "ins"%string) (/ 100000000) false true in
  nth 0 (nth 0 out []) [] = [5; 7] /\
  (nth 0 (nth 0 out []) [] = repeat 0 2 <-> [5; 7] = repeat 0 2).
Proof.
  intros v out.
  apply (normalize_mask_before_shift v [[[1; -1]; [2; 3]]] (Some "ins"%string)
           (/ 100000000) false 1 2 2 0 0).
  - lra.
  - right; reflexivity.
  - exact shape3_example.
  - reflexivity.
  - reflexivity.
  - lia.
  - lia.
  - simpl. lra.
Defined.

(** C3, as amended.  With masking and a positive [epsilon], in the layer
    and the instance mode and with the shift [beta] at zero, as it is
    initialised, the output at every position whose input sums to zero is
    the zero vector, whatever the scale [gamma]. *)
Theorem normalize_masking_zero_shift (v : norm_vars) (x : tensor3) (type : option string)
    (eps : R) (training : bool) (n t c i j : nat) :
  0 < eps ->
  type = Some "ln"%string \/ type = Some "ins"%string ->
  shape3 n t c x -> length (gamma v) = c -> beta v = repeat 0 c ->
  (i < n)%nat -> (j < t)%nat ->
  sum (nth j (nth i x []) []) = 0 ->
  nth j (nth i (normalize v x type eps training true) []) [] = repeat 0 c.
Proof.
  intros Heps Ht Hx Hg Hb Hi Hj Hs.
  rewrite (normalize_masked_shift v x type eps training n t c i j); try assumption.
  rewrite Hb. apply repeat_length.
Qed.

Lemma normalize_masking_zero_shift_witness :
  let v := {| beta := [0; 0]; gamma := [2; 3]; bn := tf.Build_bn_vars [] [] [] [] |} in
  nth 0 (nth 0 (normalize v [[[1; -1]; [2; 3]]] (Some "ln"%string) (/ 100000000) true true)
           []) [] = repeat 0 2.
Proof.
  intros v.
  apply (normalize_masking_zero_shift v [[[1; -1]; [2; 3]]] (Some "ln"%string)
           (/ 100000000) true 1 2 2 0 0).
  - lra.
  - left; reflexivity.
  - exact shape3_example.
  - reflexivity.
  - reflexivity.
  - lia.
  - lia.
  - simpl. lra.
Defined.

(** C3, as stated, fails once the shift is not zero: the single position
    of the input [[[0]]] sums to zero, and with [beta = [1]] its output
    is [[1]]. *)
Lemma normalize_masking_counterexample :
  let v := {| beta := [1]; gamma := [1]; bn := tf.Build_bn_vars [] [] [] [] |} in
  let out := normalize v [[[0]]] (Some "ln"%string) (/ 100000000) true true in
  sum (nth 0 (nth 0 [[[0]]] []) []) = 0 /\
  nth 0 (nth 0 out []) [] = [1] /\
  nth 0 (nth 0 out []) [] <> [0].
Proof.
  intros v out.
  assert (Hs : sum (nth 0 (nth 0 [[[0]]] []) []) = 0) by (simpl; lra).
  assert (Ho : nth 0 (nth 0 out []) [] = [1]).
  { apply (normalize_masked_shift v [[[0]]] (Some "ln"%string) (/ 100000000) true
             1 1 1 0 0); try reflexivity; try lia; try assumption.
    - left; reflexivity.
    - split; [reflexivity|]. repeat constructor. }
  split; [assumption|]. split; [assumption|].
  rewrite Ho. intros H. injection H as H. lra.
Qed.

(** ** Statistics of the layer mode *)

Lemma sum_map_scale (f : R -> R) (k : R) (l : vec) :
  sum (map (fun a => f a * k) l) = sum (map f l) * k.
Proof.
  induction l as [|a l IH]; simpl; [lra|]. rewrite IH. lra.
Qed.

Lemma sum_map_center (m : R) (l : vec) :
  sum (map (fun a => a - m) l) = sum l - INR (length l) * m.
Proof.
  induction l as [|a l IH]; [simpl; lra|].
  change (sum (map (fun a0 => a0 - m) (a :: l)))
    with ((a - m) + sum (map (fun a0 => a0 - m) l)).
  change (sum (a :: l)) with (a + sum l).
  change (length (a :: l)) with (S (length l)).
  rewrite IH, S_INR. lra.
Qed.

Lemma sum_centered (l : vec) : sum (map (fun a => a - tf.mean l) l) = 0.
Proof.
  rewrite sum_map_center. unfold tf.mean.
  destruct l as [|a l]; [simpl; lra|].
  assert (H : INR (length (a :: l)) <> 0) by (apply not_0_INR; discriminate).
  field. assumption.
Qed.

Lemma mean_scaled_centered (k : R) (l : vec) :
  tf.mean (map (fun a => (a - tf.mean l) * k) l) = 0.
Proof.
  unfold tf.mean at 1.
  rewrite (sum_map_scale (fun a => a - tf.mean l)), sum_centered.
  unfold Rdiv. lra.
Qed.

Lemma variance_scaled_centered (k : R) (l : vec) :
  tf.variance (map (fun a => (a - tf.mean l) * k) l) = tf.variance l * (k * k).
Proof.
  unfold tf.variance. rewrite mean_scaled_centered. unfold tf.mean at 1 3.
  rewrite !length_map, !map_map.
  rewrite (map_ext _ (fun a => Rsqr (a - tf.mean l) * (k * k))).
  2:{ intros a. unfold Rsqr. lra. }
  rewrite (sum_map_scale (fun a => Rsqr (a - tf.mean l))). unfold Rdiv. lra.
Qed.

Lemma sum_nonneg (l : vec) : Forall (fun a => 0 <= a) l -> 0 <= sum l.
Proof.
  induction 1 as [|a l Ha _ IH]; simpl; lra.
Qed.

Lemma variance_nonneg (l : vec) : 0 <= tf.variance l.
Proof.
  unfold tf.variance, tf.mean at 1. rewrite length_map.
  assert (Hs : 0 <= sum (map (fun a => Rsqr (a - tf.mean l)) l)).
  { apply sum_nonneg, Forall_forall. intros b Hb. apply in_map_iff in Hb as [a [<- _]].
    apply Rle_0_sqr. }
  destruct l as [|a l].
  - simpl. unfold Rdiv. rewrite Rmult_0_l. lra.
  - apply Rmult_le_pos; [assumption|]. apply Rlt_le, Rinv_0_lt_compat.
    apply lt_0_INR. simpl. lia.
Qed.

Lemma rsqrt_sqr (y : R) : 0 < y -> tf.rsqrt y * tf.rsqrt y = / y.
Proof.
  intros Hy. unfold tf.rsqrt. rewrite <- Rinv_mult, sqrt_sqrt by lra. reflexivity.
Qed.

Lemma nth_map_nil {A B : Type} (f : list A -> list B) (l : list (list A)) (i : nat) :
  f [] = [] -> nth i (map f l) [] = f (nth i l []).
Proof.
  intros H. transitivity (nth i (map f l) (f [])).
  - rewrite H. reflexivity.
  - apply map_nth.
Qed.

Lemma layer_normalized_nth (x : tensor3) (eps : R) (i j : nat) :
  nth j (nth i (normalized_at x (-1)%Z eps) []) [] =
  map (fun a => (a - tf.mean (nth j (nth i x []) []))
                * tf.rsqrt (tf.variance (nth j (nth i x []) []) + eps))
      (nth j (nth i x []) []).
Proof.
  rewrite normalized_at_layer.
  rewrite (nth_map_nil (fun s : mat => map (fun r : vec =>
       map (fun a => (a - tf.mean r) * tf.rsqrt (tf.variance r + eps)) r) s))
    by reflexivity.
  rewrite (nth_map_nil (fun r : vec =>
       map (fun a => (a - tf.mean r) * tf.rsqrt (tf.variance r + eps)) r))
    by reflexivity.
  reflexivity.
Qed.

(** C6, as amended.  In the layer mode the tensor normalised before scale
    and shift has, at each position, mean 0 over the channel axis, and
    its variance is [s / (s + epsilon)] for the variance [s] of the input
    at that position: below 1 by [epsilon / (s + epsilon)], and 0 for a
    constant input vector. *)
Theorem layer_norm_statistics (v : norm_vars) (x : tensor3) (eps : R) (training : bool)
    (i j : nat) :
  0 < eps ->
  normalize v x (Some "ln"%string) eps training false =
    bcast3 Rplus (bcast3 Rmult [[gamma v]] (normalized_at x (-1)%Z eps)) [[beta v]] /\
  tf.mean (nth j (nth i (normalized_at x (-1)%Z eps) []) []) = 0 /\
  tf.variance (nth j (nth i (normalized_at x (-1)%Z eps) []) []) =
    tf.variance (nth j (nth i x []) []) / (tf.variance (nth j (nth i x []) []) + eps) /\
  1 - tf.variance (nth j (nth i (normalized_at x (-1)%Z eps) []) []) =
    eps / (tf.variance (nth j (nth i x []) []) + eps).
Proof.
  intros Heps. split; [reflexivity|].
  rewrite layer_normalized_nth.
  set (r := nth j (nth i x []) []).
  pose proof (variance_nonneg r) as Hv.
  split; [apply mean_scaled_centered|].
  rewrite variance_scaled_centered, rsqrt_sqr by lra.
  split; [reflexivity|]. field. lra.
Qed.

Lemma layer_norm_statistics_witness :
  let v := {| beta := [5; 7]; gamma := [2; 3]; bn := tf.Build_bn_vars [] [] [] [] |} in
  let y := nth 0 (nth 0 (normalized_at [[[1; 3]]] (-1)%Z (/ 100000000)) []) [] in
  tf.mean y = 0 /\
  tf.variance y = tf.variance [1; 3] / (tf.variance [1; 3] + / 100000000).
Proof.
  intros v y.
  destruct (layer_norm_statistics v [[[1; 3]]] (/ 100000000) true 0 0)
    as [_ [Hm [Hv _]]]; [lra|].
  split; [exact Hm|exact Hv].
Defined.

(** C6, as stated, fails for a constant input vector: at the position
    [[1; 1]] the normalised vector has variance 0, at distance 1 from the
    claimed variance 1. *)
Lemma layer_norm_statistics_counterexample :
  let y := nth 0 (nth 0 (normalized_at [[[1; 1]]] (-1)%Z (/ 100000000)) []) [] in
  tf.variance y = 0 /\ ~ Rabs (tf.variance y - 1) <= / 2.
Proof.
  intros y.
  assert (Hm : tf.mean [1; 1] = 1) by (unfold tf.mean; simpl; lra).
  assert (Hv : tf.variance [1; 1] = 0).
  { unfold tf.variance. rewrite Hm. unfold tf.mean, Rsqr. simpl. lra. }
  assert (Hy : tf.variance y = 0).
  { unfold y. rewrite layer_normalized_nth. simpl nth.
    rewrite variance_scaled_centered, Hv. lra. }
  split; [assumption|]. rewrite Hy.
  replace (0 - 1) with (- (1)) by lra. rewrite Rabs_Ropp, Rabs_R1. lra.
Qed.

(** ** [highwaynet] *)

Lemma bcast3_map_map (op : R -> R -> R) (F G : vec -> vec) (x : tensor3) :
  bcast3 op (map (map F) x) (map (map G) x) =
  map (map (fun r => bcast op (F r) (G r))) x.
Proof.
  unfold bcast3. rewrite bcast_map_map. apply map_ext; intros s.
  apply bcast_map_map.
Qed.

Lemma nth_map2 {A B C : Type} (f : A -> B -> C) (a : list A) (b : list B) (k : nat)
    (da : A) (db : B) (d : C) :
  length a = length b -> (k < length a)%nat ->
  nth k (map2 f a b) d = f (nth k a da) (nth k b db).
Proof.
  revert b k; induction a as [|x a IH]; intros [|y b] k Hl Hk; simpl in *;
    try discriminate; try lia.
  destruct k as [|k]; [reflexivity|]. apply IH; lia.
Qed.

Lemma nth_bcast {A B C : Type} (f : A -> B -> C) (a : list A) (b : list B) (k : nat)
    (da : A) (db : B) (d : C) :
  length a = length b -> (k < length a)%nat ->
  nth k (bcast f a b) d = f (nth k a da) (nth k b db).
Proof.
  intros Hl Hk. rewrite bcast_same_length by assumption. apply nth_map2; assumption.
Qed.

Lemma elt_map_map (F : vec -> vec) (x : tensor3) (n t c i j k : nat) :
  shape3 n t c x -> (i < n)%nat -> (j < t)%nat ->
  elt (map (map F) x) i j k = nth k (F (nth j (nth i x []) [])) 0.
Proof.
  intros Hx Hi Hj. destruct (shape3_nth n t c x i j Hx Hi Hj) as [Ht _].
  destruct Hx as [Hn _]. unfold elt.
  rewrite (nth_map_lt _ x i []) by lia.
  rewrite (nth_map_lt _ (nth i x []) j []) by lia.
  reflexivity.
Qed.

Lemma map_map_map {A B C : Type} (f : B -> C) (g : A -> B) (x : list (list A)) :
  map (map f) (map (map g) x) = map (map (fun r => f (g r))) x.
Proof.
  rewrite map_map. apply map_ext; intros s. apply map_map.
Qed.

Lemma bcast3_map_r (op : R -> R -> R) (G : vec -> vec) (x : tensor3) :
  bcast3 op x (map (map G) x) = map (map (fun r => bcast op r (G r))) x.
Proof.
  unfold bcast3. rewrite bcast_map_l. apply map_ext; intros s. apply bcast_map_l.
Qed.

Lemma highway_closed (FH FT : vec -> vec) (x : tensor3) :
  bcast3 Rplus (bcast3 Rmult (map (map FH) x) (map (map FT) x))
    (bcast3 Rmult x (map3 (fun a => 1 - a) (map (map FT) x))) =
  map (map (fun r =>
    bcast Rplus (bcast Rmult (FH r) (FT r))
      (bcast Rmult r (map (fun a => 1 - a) (FT r))))) x.
Proof.
  unfold map3. rewrite map_map_map, bcast3_map_map, bcast3_map_r.
  apply (bcast3_map_map Rplus
    (fun r => bcast Rmult (FH r) (FT r))
    (fun r => bcast Rmult r (map (fun a => 1 - a) (FT r)))).
Qed.

Section HighwayProperties.

Variable sigmoid : R -> R.

Lemma highwaynet_units (v : highway_vars) (inputs : tensor3) (num_units : option nat)
    (c : nat) :
  channels inputs = c ->
  num_units = None \/ num_units = Some 0%nat \/ num_units = Some c ->
  highwaynet sigmoid v inputs num_units =
  Ok (bcast3 Rplus
        (bcast3 Rmult (tf.dense (dense1 v) c tf.relu inputs)
                      (tf.dense (dense2 v) c sigmoid inputs))
        (bcast3 Rmult inputs
           (map3 (fun a => 1 - a) (tf.dense (dense2 v) c sigmoid inputs)))).
Proof.
  intros Hc Hu. unfold highwaynet.
  assert (E : match num_units with
              | None | Some 0%nat => channels inputs
              | Some (S _ as u) => u
              end = c).
  { destruct Hu as [-> | [-> | ->]]; try assumption. destruct c; [assumption|reflexivity]. }
  rewrite E, Hc. unfold compatible. rewrite Nat.eqb_refl. reflexivity.
Qed.

(** C7. [highwaynet] computes [H = relu(dense(inputs))] and
    [T = sigmoid(dense(inputs))] and returns [H * T + inputs * (1 - T)];
    at an element where [T] is 1 the output is [H], and where [T] is 0 it
    is the input. *)
Theorem highwaynet_gate (v : highway_vars) (inputs : tensor3) (num_units : option nat)
    (n t c : nat) :
  shape3 n t c inputs -> channels inputs = c ->
  num_units = None \/ num_units = Some 0%nat \/ num_units = Some c ->
  let H := tf.dense (dense1 v) c tf.relu inputs in
  let T := tf.dense (dense2 v) c sigmoid inputs in
  exists outputs,
    highwaynet sigmoid v inputs num_units = Ok outputs /\
    outputs = bcast3 Rplus (bcast3 Rmult H T)
                (bcast3 Rmult inputs (map3 (fun a => 1 - a) T)) /\
    forall i j k, (i < n)%nat -> (j < t)%nat -> (k < c)%nat ->
      elt outputs i j k =
        elt H i j k * elt T i j k + elt inputs i j k * (1 - elt T i j k) /\
      (elt T i j k = 1 -> elt outputs i j k = elt H i j k) /\
      (elt T i j k = 0 -> elt outputs i j k = elt inputs i j k).
Proof.
  intros Hx Hc Hu H T. eexists. split; [apply highwaynet_units; eassumption|].
  split; [reflexivity|]. intros i j k Hi Hj Hk. fold H T.
  assert (E : elt (bcast3 Rplus (bcast3 Rmult H T)
                     (bcast3 Rmult inputs (map3 (fun a => 1 - a) T))) i j k =
              elt H i j k * elt T i j k + elt inputs i j k * (1 - elt T i j k)).
  { destruct (shape3_nth n t c inputs i j Hx Hi Hj) as [_ Hr].
    unfold H, T, tf.dense.
    set (FH := fun row : vec => map (fun u =>
      tf.relu (dot row (column 0 u (tf.dense_kernel (dense1 v)))
               + nth u (tf.dense_bias (dense1 v)) 0)) (seq 0 c)).
    set (FT := fun row : vec => map (fun u =>
      sigmoid (dot row (column 0 u (tf.dense_kernel (dense2 v)))
               + nth u (tf.dense_bias (dense2 v)) 0)) (seq 0 c)).
    assert (HFH : forall r, length (FH r) = c)
      by (intros r; unfold FH; rewrite length_map, length_seq; reflexivity).
    assert (HFT : forall r, length (FT r) = c)
      by (intros r; unfold FT; rewrite length_map, length_seq; reflexivity).
    rewrite highway_closed.
    rewrite !(elt_map_map _ inputs n t c) by assumption.
    unfold elt.
    set (r := nth j (nth i inputs []) []) in *.
    rewrite (nth_bcast Rplus _ _ k 0 0);
      rewrite ?bcast_length; rewrite ?length_map; try congruence; try lia.
    rewrite (nth_bcast Rmult _ _ k 0 0), (nth_bcast Rmult _ _ k 0 0);
      rewrite ?length_map; try congruence; try lia.
    rewrite (nth_map_lt (fun a => 1 - a) _ k 0) by (rewrite HFT; lia).
    reflexivity. }
  rewrite E. split; [reflexivity|]. split; intros HT; rewrite HT; lra.
Qed.

End HighwayProperties.

Lemma hard_sigmoid_high (a : R) : 2 <= a -> hard_sigmoid a = 1.
Proof.
  intros H. unfold hard_sigmoid. rewrite Rmin_left by lra. apply Rmax_right. lra.
Qed.

Lemma hard_sigmoid_low (a : R) : a <= -2 -> hard_sigmoid a = 0.
Proof.
  intros H. unfold hard_sigmoid. rewrite Rmin_right by lra. apply Rmax_left. lra.
Qed.

Lemma highwaynet_gate_witness :
  let v := {| dense1 := tf.Build_dense_vars [[2]] [1];
              dense2 := tf.Build_dense_vars [[4]] [0] |} in
  let x := [[[1]; [-1]]] in
  let H := tf.dense (dense1 v) 1 tf.relu x in
  let T := tf.dense (dense2 v) 1 hard_sigmoid x in
  elt T 0 0 0 = 1 /\ elt T 0 1 0 = 0 /\
  exists outputs,
    highwaynet hard_sigmoid v x None = Ok outputs /\
    elt outputs 0 0 0 = elt H 0 0 0 /\
    elt outputs 0 1 0 = elt x 0 1 0.
Proof.
  intros v x H T.
  assert (T1 : elt T 0 0 0 = 1).
  { unfold T, elt, tf.dense, dot, column. simpl. apply hard_sigmoid_high. lra. }
  assert (T0 : elt T 0 1 0 = 0).
  { unfold T, elt, tf.dense, dot, column. simpl. apply hard_sigmoid_low. lra. }
  split; [exact T1|]. split; [exact T0|].
  destruct (highwaynet_gate hard_sigmoid v x None 1 2 1) as [outputs [Ho [_ He]]].
  - split; [reflexivity|]. repeat constructor.
  - reflexivity.
  - left; reflexivity.
  - exists outputs. split; [exact Ho|]. split.
    + destruct (He 0%nat 0%nat 0%nat) as [_ [H1 _]]; try lia. apply H1. exact T1.
    + destruct (He 0%nat 1%nat 0%nat) as [_ [_ H0]]; try lia. apply H0. exact T0.
Defined.

(** ** The convolution *)

Lemma mapM_Ok_map {A B : Type} (f : A -> result B) (g : A -> B) (l : list A) :
  (forall a, In a l -> f a = Ok (g a)) -> mapM f l = Ok (map g l).
Proof.
  induction l as [|a l IH]; intros H; simpl; [reflexivity|].
  rewrite (H a) by (left; reflexivity). simpl.
  rewrite IH by (intros b Hb; apply H; right; assumption). reflexivity.
Qed.

Lemma mapM_map {A B C : Type} (f : B -> result C) (g : A -> B) (l : list A) :
  mapM f (map g l) = mapM (fun a => f (g a)) l.
Proof.
  induction l as [|a l IH]; simpl; [reflexivity|]. rewrite IH. reflexivity.
Qed.

Lemma firstn_seq (m a L : nat) : firstn m (seq a L) = seq a (Nat.min m L).
Proof.
  revert a L; induction m as [|m IH]; intros a [|L]; simpl; try reflexivity.
  rewrite IH. reflexivity.
Qed.

Lemma time_dim_le (x : tensor3) (n : nat) :
  (time_dim x <= n)%nat <-> Forall (fun s : mat => (length s <= n)%nat) x.
Proof.
  unfold time_dim. rewrite list_max_le, Forall_map. reflexivity.
Qed.

Lemma time_dim_nth (x : tensor3) (i : nat) :
  (length (nth i x []) <= time_dim x)%nat.
Proof.
  destruct (Nat.lt_ge_cases i (length x)) as [Hi|Hi].
  - pose proof (proj1 (time_dim_le x (time_dim x)) (Nat.le_refl _)) as H.
    rewrite Forall_forall in H. apply H, nth_In, Hi.
  - rewrite nth_overflow by assumption. simpl. lia.
Qed.

Lemma time_dim_time_length (L : nat) (x : tensor3) :
  x <> [] -> time_length L x -> time_dim x = L.
Proof.
  intros Hx HL. unfold time_length in HL. apply Nat.le_antisymm.
  - apply time_dim_le. eapply Forall_impl; [|exact HL]. intros s Hs; simpl in Hs. lia.
  - destruct x as [|s x]; [contradiction|]. inversion HL as [|? ? Hs _]; subst.
    apply (time_dim_nth (s :: x) 0).
Qed.

Lemma time_dim_lengths (a b : tensor3) :
  map (@length (list R)) a = map (@length (list R)) b -> time_dim a = time_dim b.
Proof. unfold time_dim. intros ->. reflexivity. Qed.

Lemma conv_valid_Ok (v : tf.conv_vars) (use_bias : bool) (filters size rate : nat)
    (x : tensor3) :
  ((size - 1) * rate < time_dim x)%nat ->
  tf.conv_valid v use_bias filters size rate x =
  Ok (map (fun s =>
        tf.conv_rows v use_bias filters size rate s (length s - (size - 1) * rate)) x).
Proof.
  intros H. unfold tf.conv_valid.
  destruct (Nat.leb_spec (time_dim x) ((size - 1) * rate)); [lia|reflexivity].
Qed.

Lemma conv_valid_Err (v : tf.conv_vars) (use_bias : bool) (filters size rate : nat)
    (x : tensor3) :
  (time_dim x <= (size - 1) * rate)%nat ->
  tf.conv_valid v use_bias filters size rate x = Err ShapeError.
Proof.
  intros H. unfold tf.conv_valid.
  destruct (Nat.leb_spec (time_dim x) ((size - 1) * rate)); [reflexivity|lia].
Qed.

Lemma zeros_length (r c : nat) : length (tf.zeros r c) = r.
Proof. apply repeat_length. Qed.

(** Under the front padding of the window span, the window of the output
    at [t'] ends at input position [t']. *)
Lemma conv_at_causal (k : list mat) (size rate c : nat) (s s' : mat) (t t' o : nat) :
  firstn (S t) s = firstn (S t) s' -> (t' <= t)%nat ->
  tf.conv_at k size rate (tf.zeros ((size - 1) * rate) c ++ s) t' o =
  tf.conv_at k size rate (tf.zeros ((size - 1) * rate) c ++ s') t' o.
Proof.
  intros Hs Ht. unfold tf.conv_at. f_equal. apply map_ext_in. intros j Hj.
  apply in_seq in Hj. f_equal.
  set (P := ((size - 1) * rate)%nat).
  assert (HP : (j * rate <= P)%nat) by (unfold P; apply Nat.mul_le_mono_r; lia).
  destruct (Nat.lt_ge_cases (t' + j * rate) P) as [Hlt|Hge].
  - rewrite !app_nth1 by (rewrite zeros_length; assumption). reflexivity.
  - rewrite !app_nth2 by (rewrite zeros_length; assumption). rewrite zeros_length.
    assert (Hk : (t' + j * rate - P <? S t)%nat = true) by (apply Nat.ltb_lt; lia).
    pose proof (nth_firstn (S t) s (t' + j * rate - P) []) as E1.
    pose proof (nth_firstn (S t) s' (t' + j * rate - P) []) as E2.
    rewrite Hk in E1, E2. rewrite <- E1, <- E2, Hs. reflexivity.
Qed.

Lemma time_dim_pad (p c : nat) (x : tensor3) :
  (time_dim (map (fun s => tf.zeros p c ++ s) x) <= p)%nat <-> (time_dim x <= 0)%nat.
Proof.
  rewrite !time_dim_le, Forall_map, !Forall_forall.
  split; intros H s Hs; specialize (H s Hs);
    rewrite length_app, zeros_length in *; lia.
Qed.

Lemma conv_valid_padded (v : tf.conv_vars) (use_bias : bool) (filters size rate c : nat)
    (x : tensor3) :
  (1 <= time_dim x)%nat ->
  tf.conv_valid v use_bias filters size rate
    (map (fun s => tf.zeros ((size - 1) * rate) c ++ s) x) =
  Ok (map (causal_rows v use_bias filters size rate c) x).
Proof.
  intros H. rewrite conv_valid_Ok.
  - rewrite map_map. f_equal. apply map_ext; intros s.
    rewrite length_app, zeros_length.
    replace ((size - 1) * rate + length s - (size - 1) * rate)%nat with (length s) by lia.
    reflexivity.
  - apply Nat.nle_gt. intros Hle. apply time_dim_pad in Hle. lia.
Qed.

Lemma conv_valid_padded_empty (v : tf.conv_vars) (use_bias : bool)
    (filters size rate c : nat) (x : tensor3) :
  time_dim x = 0%nat ->
  tf.conv_valid v use_bias filters size rate
    (map (fun s => tf.zeros ((size - 1) * rate) c ++ s) x) = Err ShapeError.
Proof.
  intros H. apply conv_valid_Err, time_dim_pad. lia.
Qed.

Lemma causal_rows_length (v : tf.conv_vars) (use_bias : bool) (filters size rate c : nat)
    (s : mat) :
  length (causal_rows v use_bias filters size rate c s) = length s.
Proof. unfold causal_rows. rewrite length_map, length_seq. reflexivity. Qed.

Lemma causal_rows_agree (v : tf.conv_vars) (use_bias : bool) (filters size rate c : nat)
    (s s' : mat) (t : nat) :
  firstn (S t) s = firstn (S t) s' ->
  firstn (S t) (causal_rows v use_bias filters size rate c s) =
  firstn (S t) (causal_rows v use_bias filters size rate c s').
Proof.
  intros Hs. unfold causal_rows. rewrite !firstn_map, !firstn_seq.
  assert (Hl : Nat.min (S t) (length s) = Nat.min (S t) (length s')).
  { rewrite <- !length_firstn, Hs. reflexivity. }
  rewrite <- Hl. apply map_ext_in. intros t' Ht'. apply in_seq in Ht'.
  apply map_ext. intros o. cbv zeta.
  rewrite (conv_at_causal _ size rate c s s' t t' o) by (assumption || lia).
  reflexivity.
Qed.

Lemma channels_pad (p : nat) (x : tensor3) :
  channels (map (fun s => tf.zeros p (channels x) ++ s) x) = channels x.
Proof.
  destruct x as [|s x]; [reflexivity|]. destruct p as [|p]; [reflexivity|].
  simpl. apply repeat_length.
Qed.

Lemma span_to_nat (size rate : Z) :
  (1 <= size)%Z -> (1 <= rate)%Z ->
  Z.to_nat ((size - 1) * rate) = ((Z.to_nat size - 1) * Z.to_nat rate)%nat.
Proof.
  intros Hs Hr. rewrite Z2Nat.inj_mul by lia. f_equal. lia.
Qed.

Lemma layers_conv1d_valid (v : tf.conv_vars) (x : tensor3) (filters : nat)
    (size rate : Z) (padding : string) (use_bias : bool) :
  (1 <= size)%Z -> (1 <= rate)%Z -> lower padding = "valid"%string ->
  tf.layers_conv1d v x filters size rate padding use_bias =
  tf.conv_valid v use_bias filters (Z.to_nat size) (Z.to_nat rate) x.
Proof.
  intros Hs Hr Hp. unfold tf.layers_conv1d.
  destruct (Z.ltb_spec size 1); [lia|]. destruct (Z.ltb_spec rate 1); [lia|].
  rewrite Hp. reflexivity.
Qed.

Lemma layers_conv1d_same (v : tf.conv_vars) (x : tensor3) (filters : nat)
    (size rate : Z) (padding : string) (use_bias : bool) :
  (1 <= size)%Z -> (1 <= rate)%Z -> lower padding = "same"%string ->
  tf.layers_conv1d v x filters size rate padding use_bias =
  Ok (map (fun s =>
    tf.conv_rows v use_bias filters (Z.to_nat size) (Z.to_nat rate)
      (tf.zeros ((Z.to_nat size - 1) * Z.to_nat rate / 2) (channels x) ++ s ++
       tf.zeros ((Z.to_nat size - 1) * Z.to_nat rate
                 - (Z.to_nat size - 1) * Z.to_nat rate / 2) (channels x))
      (length s)) x).
Proof.
  intros Hs Hr Hp. unfold tf.layers_conv1d.
  destruct (Z.ltb_spec size 1); [lia|]. destruct (Z.ltb_spec rate 1); [lia|].
  rewrite Hp. reflexivity.
Qed.

(** The causal branch is the [valid] convolution of the front-padded
    input, and it returns on a non-empty time axis. *)
Lemma conv1d_tensor_causal_pad (v : conv1d_vars) (x : tensor3) (filters : option nat)
    (size rate : Z) (padding : string) (use_bias : bool) :
  (1 <= size)%Z -> (1 <= rate)%Z -> lower padding = "causal"%string ->
  conv1d_tensor v x filters size rate padding use_bias =
    tf.layers_conv1d (conv v)
      (map (fun s => tf.zeros (Z.to_nat ((size - 1) * rate)) (channels x) ++ s) x)
      (match filters with None => channels x | Some f => f end)
      size rate "valid" use_bias.
Proof.
  intros Hs Hr Hp. unfold conv1d_tensor. rewrite Hp. simpl String.eqb. cbv iota.
  unfold tf.pad_time. destruct (Z.ltb_spec ((size - 1) * rate) 0); [nia|].
  simpl bind. rewrite channels_pad. reflexivity.
Qed.

Lemma conv1d_tensor_causal (v : conv1d_vars) (x : tensor3) (filters : option nat)
    (size rate : Z) (padding : string) (use_bias : bool) :
  (1 <= size)%Z -> (1 <= rate)%Z -> lower padding = "causal"%string ->
  (1 <= time_dim x)%nat ->
  conv1d_tensor v x filters size rate padding use_bias =
    Ok (map (causal_rows (conv v) use_bias
               (match filters with None => channels x | Some f => f end)
               (Z.to_nat size) (Z.to_nat rate) (channels x)) x).
Proof.
  intros Hs Hr Hp Ht.
  rewrite conv1d_tensor_causal_pad by assumption.
  rewrite layers_conv1d_valid by (assumption || reflexivity).
  rewrite span_to_nat by assumption. apply conv_valid_padded, Ht.
Qed.

Lemma conv1d_tensor_causal_empty (v : conv1d_vars) (x : tensor3) (filters : option nat)
    (size rate : Z) (padding : string) (use_bias : bool) :
  (1 <= size)%Z -> (1 <= rate)%Z -> lower padding = "causal"%string ->
  time_dim x = 0%nat ->
  conv1d_tensor v x filters size rate padding use_bias = Err ShapeError.
Proof.
  intros Hs Hr Hp Ht.
  rewrite conv1d_tensor_causal_pad by assumption.
  rewrite layers_conv1d_valid by (assumption || reflexivity).
  rewrite span_to_nat by assumption. apply conv_valid_padded_empty, Ht.
Qed.

Lemma agree_upto_map (F G : mat -> mat) (x y : tensor3) (t : nat) :
  (forall s s', firstn (S t) s = firstn (S t) s' ->
                firstn (S t) (F s) = firstn (S t) (G s')) ->
  agree_upto t x y -> agree_upto t (map F x) (map G y).
Proof.
  unfold agree_upto. intros H. revert y; induction x as [|s x IH]; intros [|s' y] Hxy;
    simpl in *; try discriminate; [reflexivity|].
  injection Hxy as Hs Hxy. f_equal; [apply H, Hs|apply IH, Hxy].
Qed.

Lemma agree_upto_channels (x y : tensor3) (t : nat) :
  agree_upto t x y -> channels x = channels y.
Proof.
  unfold agree_upto. destruct x as [|[|r s] x], y as [|[|r' s'] y]; simpl;
    intros H; try discriminate; try reflexivity.
  injection H as H _ _. congruence.
Qed.

Lemma agree_upto_time_dim (x y : tensor3) (t : nat) :
  agree_upto t x y -> (1 <= time_dim x)%nat -> (1 <= time_dim y)%nat.
Proof.
  unfold agree_upto, time_dim.
  revert y; induction x as [|s x IH]; intros [|s' y] H Hx; simpl in *;
    try discriminate; [lia|].
  injection H as Hs H.
  destruct (Nat.eq_dec (length s) 0) as [E|E].
  - specialize (IH y H). lia.
  - assert (length s' <> 0%nat).
    { intros E'. apply length_zero_iff_nil in E'. subst s'.
      destruct s; [contradiction|discriminate]. }
    lia.
Qed.

(** The convolution stage of the causal branch is causal. *)
Lemma conv1d_tensor_causality (v : conv1d_vars) (x y : tensor3) (filters : option nat)
    (size rate : Z) (padding : string) (use_bias : bool) (t : nat) :
  (1 <= size)%Z -> (1 <= rate)%Z -> lower padding = "causal"%string ->
  (1 <= time_dim x)%nat -> agree_upto t x y ->
  exists ox oy,
    conv1d_tensor v x filters size rate padding use_bias = Ok ox /\
    conv1d_tensor v y filters size rate padding use_bias = Ok oy /\
    agree_upto t ox oy /\
    map (@length (list R)) ox = map (@length (list R)) x /\
    map (@length (list R)) oy = map (@length (list R)) y.
Proof.
  intros Hs Hr Hp Ht Hxy.
  pose proof (agree_upto_time_dim x y t Hxy Ht) as Hty.
  do 2 eexists.
  split; [apply conv1d_tensor_causal; assumption|].
  split; [apply conv1d_tensor_causal; assumption|].
  split; [|split].
  - rewrite <- (agree_upto_channels x y t Hxy).
    apply agree_upto_map; [|assumption].
    intros s s' Hss. apply causal_rows_agree, Hss.
  - rewrite map_map. apply map_ext; intros s. apply causal_rows_length.
  - rewrite map_map. apply map_ext; intros s. apply causal_rows_length.
Qed.

(** ** Normalisation, activation and dropout after the convolution *)

Lemma normalize_batch_inference (v : norm_vars) (x : tensor3) (eps : R) (masking : bool) :
  normalize v x (Some "bn"%string) eps false masking =
  map (map (fun row =>
    bcast Rplus
      (bcast Rmult (bcast Rminus row (tf.moving_mean (bn v)))
         (bcast Rmult (map (fun a => tf.rsqrt (a + / 1000)) (tf.moving_variance (bn v)))
            (tf.bn_gamma (bn v))))
      (tf.bn_beta (bn v)))) x.
Proof.
  unfold normalize, tf.batch_normalization, tf.squeeze1, tf.expand_dims1. simpl.
  rewrite !map_map. reflexivity.
Qed.

Lemma normalize_layer_rowwise (v : norm_vars) (x : tensor3) (eps : R)
    (training masking : bool) :
  normalize v x (Some "ln"%string) eps training false =
  map (map (fun r =>
    bcast Rplus
      (bcast Rmult (gamma v)
         (map (fun a => (a - tf.mean r) * tf.rsqrt (tf.variance r + eps)) r))
      (beta v))) x.
Proof.
  rewrite normalize_layer_instance by (left; reflexivity). cbv zeta.
  change (type_is (Some "ln"%string) "ln") with true. cbv iota.
  rewrite normalized_at_layer, bcast3_scale, bcast3_shift, !map_map.
  apply map_ext; intros s. rewrite !map_map. reflexivity.
Qed.

(** Outside the instance mode, and outside the batch mode while training,
    [normalize] maps every position on its own. *)
Lemma normalize_rowwise (v : norm_vars) (type : option string) (eps : R) (training : bool) :
  type_is type "ins" = false ->
  (type_is type "bn" = true -> training = false) ->
  exists g : vec -> vec,
    forall x, normalize v x type eps training false = map (map g) x.
Proof.
  intros Hins Hbn.
  destruct (type_is type "bn") eqn:Ebn.
  - destruct type as [s|]; [|discriminate]. apply type_is_eq in Ebn as ->.
    rewrite (Hbn eq_refl). eexists. intros x. apply normalize_batch_inference.
  - destruct (type_is type "ln") eqn:Eln.
    + destruct type as [s|]; [|discriminate]. apply type_is_eq in Eln as ->.
      eexists. intros x. apply (normalize_layer_rowwise v x eps training false).
    + exists (fun r => r). intros x. unfold normalize. rewrite Ebn, Eln, Hins.
      apply tensor3_as_map.
Qed.

Lemma agree_upto_rowwise (g : vec -> vec) (x y : tensor3) (t : nat) :
  agree_upto t x y -> agree_upto t (map (map g) x) (map (map g) y).
Proof.
  apply agree_upto_map. intros s s' H. rewrite !firstn_map, H. reflexivity.
Qed.

Lemma imap_from_length {A B : Type} (f : nat -> A -> B) (l : list A) (i : nat) :
  length (imap_from i f l) = length l.
Proof.
  revert i; induction l as [|a l IH]; intros i; simpl; [|rewrite IH]; reflexivity.
Qed.

Lemma firstn_imap_from {A B : Type} (f : nat -> A -> B) (l : list A) (i k : nat) :
  firstn k (imap_from i f l) = imap_from i f (firstn k l).
Proof.
  revert i k; induction l as [|a l IH]; intros i [|k]; simpl; try reflexivity.
  rewrite IH. reflexivity.
Qed.

Lemma imap_from_map {A B C : Type} (f : nat -> B -> C) (g : A -> B) (l : list A) (i : nat) :
  imap_from i f (map g l) = imap_from i (fun n a => f n (g a)) l.
Proof.
  revert i; induction l as [|a l IH]; intros i; simpl; [|rewrite IH]; reflexivity.
Qed.

Lemma map_imap_from {A B C : Type} (g : B -> C) (f : nat -> A -> B) (l : list A) (i : nat) :
  map g (imap_from i f l) = imap_from i (fun n a => g (f n a)) l.
Proof.
  revert i; induction l as [|a l IH]; intros i; simpl; [|rewrite IH]; reflexivity.
Qed.

Lemma imap_from_ext {A B : Type} (f g : nat -> A -> B) (l : list A) (i : nat) :
  (forall n a, f n a = g n a) -> imap_from i f l = imap_from i g l.
Proof.
  intros H. revert i; induction l as [|a l IH]; intros i; simpl; [reflexivity|].
  rewrite H, IH. reflexivity.
Qed.

(** The elements dropout keeps or zeroes up to time [t] are decided by
    the input up to time [t]. *)
Lemma dropped_firstn (keep : nat -> nat -> nat -> bool) (rate : R) (x : tensor3) (k : nat) :
  map (firstn k) (tf.dropped keep rate x) = tf.dropped keep rate (map (firstn k) x).
Proof.
  unfold tf.dropped, imap. rewrite map_imap_from, imap_from_map.
  apply imap_from_ext. intros b s. apply firstn_imap_from.
Qed.

Lemma dropped_lengths (keep : nat -> nat -> nat -> bool) (rate : R) (x : tensor3) :
  map (@length (list R)) (tf.dropped keep rate x) = map (@length (list R)) x.
Proof.
  unfold tf.dropped. unfold imap at 1. rewrite map_imap_from.
  rewrite (imap_from_ext _ (fun (_ : nat) (s : mat) => length s))
    by (intros b s; apply imap_from_length).
  generalize 0%nat. induction x as [|s x IH]; intros i; simpl; [reflexivity|].
  rewrite IH. reflexivity.
Qed.

(** Dropout returns when it is not training, or when the rate lies in
    [0, 1); what it returns keeps the extents of the batch and time axes
    and is decided, up to time [t], by the input up to time [t]. *)
Lemma dropout_Ok (keep : nat -> nat -> nat -> bool) (rate : R) (training : bool) :
  (training = true -> 0 <= rate < 1) ->
  exists d : tensor3 -> tensor3,
    (forall x, tf.dropout keep rate training x = Ok (d x)) /\
    (forall x k, map (firstn k) (d x) = d (map (firstn k) x)) /\
    (forall x, map (@length (list R)) (d x) = map (@length (list R)) x).
Proof.
  intros H. unfold tf.dropout. destruct training.
  - destruct (H eq_refl) as [H0 H1].
    destruct (Rle_dec 0 rate) as [_|Hn]; [|contradiction].
    destruct (Rlt_dec rate 1) as [_|Hn]; [|contradiction].
    destruct (Req_dec_T rate 0) as [_|_].
    + exists (fun x => x). repeat split; reflexivity.
    + exists (tf.dropped keep rate). split; [reflexivity|].
      split; [intros x k; apply dropped_firstn|intros x; apply dropped_lengths].
  - exists (fun x => x). repeat split; reflexivity.
Qed.

(** While training, dropout rejects a rate outside [0, 1). *)
Lemma dropout_Err (keep : nat -> nat -> nat -> bool) (rate : R) (x : tensor3) :
  ~ 0 <= rate < 1 -> tf.dropout keep rate true x = Err ValueError.
Proof.
  intros H. unfold tf.dropout.
  destruct (Rle_dec 0 rate) as [H0|_]; [|reflexivity].
  destruct (Rlt_dec rate 1) as [H1|_]; [|reflexivity].
  exfalso. apply H. split; assumption.
Qed.

(** [conv1d] after its convolution: normalisation, activation and
    dropout keep identity on [0, t] when none of them looks across
    time. *)
Lemma conv1d_post_causal (v : conv1d_vars) (keep : nat -> nat -> nat -> bool)
    (x y : tensor3) (filters : option nat) (size rate : Z) (padding : string)
    (dropout_rate : R) (use_bias : bool) (norm_type : option string)
    (activation_fn : option (tensor3 -> tensor3)) (training : bool) (t : nat)
    (cx cy : tensor3) :
  conv1d_tensor v x filters size rate padding use_bias = Ok cx ->
  conv1d_tensor v y filters size rate padding use_bias = Ok cy ->
  agree_upto t cx cy ->
  type_is norm_type "ins" = false ->
  (type_is norm_type "bn" = true -> training = false) ->
  (forall f, activation_fn = Some f ->
     forall a b, agree_upto t a b -> agree_upto t (f a) (f b)) ->
  (training = true -> 0 <= dropout_rate < 1) ->
  exists ox oy,
    conv1d v keep x filters size rate padding dropout_rate use_bias norm_type
      activation_fn training = Ok ox /\
    conv1d v keep y filters size rate padding dropout_rate use_bias norm_type
      activation_fn training = Ok oy /\
    agree_upto t ox oy.
Proof.
  intros Ex Ey Hc Hins Hbn Hact Hdrop.
  destruct (normalize_rowwise (norm v) norm_type (/ 100000000) training Hins Hbn)
    as [g Hg].
  destruct (dropout_Ok keep dropout_rate training Hdrop) as [d [Hd [Hdf _]]].
  unfold conv1d. rewrite Ex, Ey. simpl bind. rewrite !Hd. do 2 eexists.
  split; [reflexivity|]. split; [reflexivity|].
  unfold agree_upto. rewrite !Hdf. f_equal. rewrite !Hg.
  destruct activation_fn as [f|].
  - apply (Hact f eq_refl). apply agree_upto_rowwise, Hc.
  - apply agree_upto_rowwise, Hc.
Qed.

(** C1, as amended.  With [padding = "causal"], kernel size and dilation
    rate at least 1 and a non-empty time axis: the causal branch is the
    [valid] convolution of the input padded in front with
    [(size - 1) * rate] zero rows; for two inputs identical on [0, t] the
    convolution returns tensors identical on [0, t]; and so does [conv1d]
    when the normalisation does not reduce over time (any mode but
    ["ins"], and ["bn"] only outside training), the activation, if any,
    respects identity on [0, t], and the dropout rate lies in [0, 1)
    while training. *)
Theorem conv1d_causality (v : conv1d_vars) (keep : nat -> nat -> nat -> bool)
    (x y : tensor3) (filters : option nat) (size rate : Z) (padding : string)
    (dropout_rate : R) (use_bias : bool) (norm_type : option string)
    (activation_fn : option (tensor3 -> tensor3)) (training : bool) (t : nat) :
  (1 <= size)%Z -> (1 <= rate)%Z -> lower padding = "causal"%string ->
  (1 <= time_dim x)%nat -> agree_upto t x y ->
  conv1d_tensor v x filters size rate padding use_bias =
    tf.layers_conv1d (conv v)
      (map (fun s => tf.zeros (Z.to_nat ((size - 1) * rate)) (channels x) ++ s) x)
      (match filters with None => channels x | Some f => f end)
      size rate "valid" use_bias /\
  (exists ox oy,
     conv1d_tensor v x filters size rate padding use_bias = Ok ox /\
     conv1d_tensor v y filters size rate padding use_bias = Ok oy /\
     agree_upto t ox oy) /\
  (type_is norm_type "ins" = false ->
   (type_is norm_type "bn" = true -> training = false) ->
   (forall f, activation_fn = Some f ->
      forall a b, agree_upto t a b -> agree_upto t (f a) (f b)) ->
   (training = true -> 0 <= dropout_rate < 1) ->
   exists ox oy,
     conv1d v keep x filters size rate padding dropout_rate use_bias norm_type
       activation_fn training = Ok ox /\
     conv1d v keep y filters size rate padding dropout_rate use_bias norm_type
       activation_fn training = Ok oy /\
     agree_upto t ox oy).
Proof.
  intros Hs Hr Hp Ht Hxy.
  split; [apply conv1d_tensor_causal_pad; assumption|].
  destruct (conv1d_tensor_causality v x y filters size rate padding use_bias t
              Hs Hr Hp Ht Hxy) as [cx [cy [Ex [Ey [Hc _]]]]].
  split; [exists cx, cy; auto|].
  intros Hins Hbn Hact Hdrop.
  apply (conv1d_post_causal v keep x y filters size rate padding dropout_rate use_bias
           norm_type activation_fn training t cx cy); assumption.
Qed.

Lemma conv1d_causality_witness :
  let v := {| conv := tf.Build_conv_vars [[[1; 2; 0]]; [[3; -1; 1]]] [0; 1; 0];
              norm := {| beta := [1; 0; 2]; gamma := [1; 2; 3];
                         bn := tf.Build_bn_vars [1; 1; 1] [0; 0; 0] [0; 0; 0] [1; 1; 1] |} |} in
  let keep := fun n t c : nat => Nat.even (n + t + c) in
  let x := [[[1]; [2]; [3]]] in
  let y := [[[1]; [2]; [5]]] in
  agree_upto 1 x y /\
  exists ox oy,
    conv1d v keep x (Some 3%nat) 2 1 "Causal" (/ 2) true (Some "ln"%string) None true
      = Ok ox /\
    conv1d v keep y (Some 3%nat) 2 1 "Causal" (/ 2) true (Some "ln"%string) None true
      = Ok oy /\
    agree_upto 1 ox oy.
Proof.
  intros v keep x y. split; [reflexivity|].
  destruct (conv1d_causality v keep x y (Some 3%nat) 2 1 "Causal" (/ 2) true
              (Some "ln"%string) None true 1) as [_ [_ H]].
  - lia.
  - lia.
  - reflexivity.
  - unfold x, time_dim. simpl. lia.
  - reflexivity.
  - apply H.
    + reflexivity.
    + discriminate.
    + discriminate.
    + intros _. lra.
Defined.

(** Tensors identical on [0, t] have the same vector at every time
    [j <= t]. *)
Lemma agree_upto_nth (a b : tensor3) (t i j : nat) :
  agree_upto t a b -> (j <= t)%nat ->
  nth j (nth i a []) [] = nth j (nth i b []) [].
Proof.
  intros H Hj. unfold agree_upto in H.
  assert (Hk : (j <? S t)%nat = true) by (apply Nat.ltb_lt; lia).
  pose proof (nth_firstn (S t) (nth i a []) j []) as E1.
  pose proof (nth_firstn (S t) (nth i b []) j []) as E2.
  rewrite Hk in E1, E2. rewrite <- E1, <- E2.
  assert (E : nth i (map (firstn (S t)) a) [] = nth i (map (firstn (S t)) b) [])
    by (rewrite H; reflexivity).
  rewrite !(nth_map_nil (firstn (S t))) in E by reflexivity.
  rewrite E. reflexivity.
Qed.

Lemma rsqrt_pos (a : R) : 0 < a -> 0 < tf.rsqrt a.
Proof.
  intros H. unfold tf.rsqrt. apply Rinv_0_lt_compat, sqrt_lt_R0, H.
Qed.

(** C1, as stated, fails in the instance mode, whose statistics are taken
    over the time axis: the inputs [[1], [1]] and [[1], [3]] are identical
    at time 0, and their outputs at time 0 are [0] and
    [- rsqrt (1 + epsilon)]. *)
Lemma conv1d_causality_counterexample :
  let v := {| conv := tf.Build_conv_vars [[[1]]] [0];
              norm := {| beta := [0]; gamma := [1];
                         bn := tf.Build_bn_vars [1] [0] [0] [1] |} |} in
  let keep := fun _ _ _ : nat => true in
  let x := [[[1]; [1]]] in
  let y := [[[1]; [3]]] in
  agree_upto 0 x y /\
  exists ox oy,
    conv1d v keep x (Some 1%nat) 1 1 "causal" 0 false (Some "ins"%string) None false = Ok ox /\
    conv1d v keep y (Some 1%nat) 1 1 "causal" 0 false (Some "ins"%string) None false = Ok oy /\
    elt ox 0 0 0 = 0 /\
    elt oy 0 0 0 = - tf.rsqrt (1 + / 100000000) /\
    ~ agree_upto 0 ox oy.
Proof.
  intros v keep x y. split; [reflexivity|].
  assert (Cx : conv1d_tensor v x (Some 1%nat) 1 1 "causal" false = Ok x).
  { rewrite (conv1d_tensor_causal v x (Some 1%nat) 1 1 "causal" false)
      by (try lia; try reflexivity; unfold x, y, time_dim; simpl; lia). unfold causal_rows, tf.conv_at, dot, column. simpl.
    replace (1 * 1 + 0 + 0) with 1 by lra. reflexivity. }
  assert (Cy : conv1d_tensor v y (Some 1%nat) 1 1 "causal" false = Ok y).
  { rewrite (conv1d_tensor_causal v y (Some 1%nat) 1 1 "causal" false)
      by (try lia; try reflexivity; unfold x, y, time_dim; simpl; lia). unfold causal_rows, tf.conv_at, dot, column. simpl.
    replace (1 * 1 + 0 + 0) with 1 by lra.
    replace (3 * 1 + 0 + 0) with 3 by lra. reflexivity. }
  assert (Mx : tf.mean [1; 1] = 1) by (unfold tf.mean; simpl; lra).
  assert (My : tf.mean [1; 3] = 2) by (unfold tf.mean; simpl; lra).
  assert (Vy : tf.variance [1; 3] = 1).
  { unfold tf.variance. rewrite My. unfold tf.mean, Rsqr. simpl. lra. }
  assert (Ex : elt (normalize (norm v) x (Some "ins"%string) (/ 100000000) false false)
                 0 0 0 = 0).
  { rewrite normalize_layer_instance by (right; reflexivity). cbv zeta.
    change (type_is (Some "ins"%string) "ln") with false. cbv iota.
    rewrite normalized_at_instance. unfold elt, column. simpl. rewrite Mx. lra. }
  assert (Ey : elt (normalize (norm v) y (Some "ins"%string) (/ 100000000) false false)
                 0 0 0 = - tf.rsqrt (1 + / 100000000)).
  { rewrite normalize_layer_instance by (right; reflexivity). cbv zeta.
    change (type_is (Some "ins"%string) "ln") with false. cbv iota.
    rewrite normalized_at_instance. unfold elt, column. simpl. rewrite My, Vy. lra. }
  exists (normalize (norm v) x (Some "ins"%string) (/ 100000000) false false).
  exists (normalize (norm v) y (Some "ins"%string) (/ 100000000) false false).
  split; [unfold conv1d; rewrite Cx; reflexivity|].
  split; [unfold conv1d; rewrite Cy; reflexivity|].
  split; [exact Ex|]. split; [exact Ey|].
  intros H.
  assert (E : elt (normalize (norm v) x (Some "ins"%string) (/ 100000000) false false) 0 0 0
            = elt (normalize (norm v) y (Some "ins"%string) (/ 100000000) false false) 0 0 0).
  { unfold elt. rewrite (agree_upto_nth _ _ 0 0 0 H) by lia. reflexivity. }
  rewrite Ex, Ey in E.
  pose proof (rsqrt_pos (1 + / 100000000)) as Hp. lra.
Qed.

(** ** Time lengths *)

(** Every mode of [normalize] keeps the extents of the batch and time
    axes. *)
Lemma normalize_lengths (v : norm_vars) (x : tensor3) (type : option string) (eps : R)
    (training : bool) :
  map (@length (list R)) (normalize v x type eps training false) =
  map (@length (list R)) x.
Proof.
  assert (K : forall F : mat -> vec -> vec,
    map (@length (list R)) (map (fun s => map (F s) s) x) = map (@length (list R)) x).
  { intros F. rewrite map_map. apply map_ext; intros s. apply length_map. }
  destruct (type_is type "bn") eqn:Ebn.
  - unfold normalize. rewrite Ebn.
    unfold tf.batch_normalization, tf.squeeze1, tf.expand_dims1.
    rewrite !map_map. simpl. apply map_ext; intros s. apply length_map.
  - destruct (type_is type "ln") eqn:Eln.
    + destruct type as [s|]; [|discriminate]. apply type_is_eq in Eln as ->.
      rewrite (normalize_layer_rowwise v x eps training false). apply (K (fun _ => _)).
    + destruct (type_is type "ins") eqn:Eins.
      * destruct type as [s|]; [|discriminate]. apply type_is_eq in Eins as ->.
        rewrite normalize_layer_instance by (right; reflexivity). cbv zeta.
        change (type_is (Some "ins"%string) "ln") with false. cbv iota.
        rewrite normalized_at_instance, bcast3_scale, bcast3_shift, !map_map.
        apply map_ext; intros s. rewrite !map_map. apply length_map.
      * unfold normalize. rewrite Ebn, Eln, Eins. reflexivity.
Qed.

Lemma lengths_time_length (L : nat) (a b : tensor3) :
  map (@length (list R)) a = map (@length (list R)) b ->
  time_length L b -> length a = length b /\ time_length L a.
Proof.
  unfold time_length. revert b; induction a as [|s a IH]; intros [|s' b] H Hb;
    simpl in *; try discriminate; [split; [reflexivity|constructor]|].
  injection H as Hs H. inversion Hb as [|? ? Hs' Hb']; subst.
  destruct (IH b H Hb') as [Hl Ha]. split; [lia|]. constructor; [lia|assumption].
Qed.

Lemma conv1d_tensor_same (v : conv1d_vars) (x : tensor3) (filters : option nat)
    (size rate : Z) (padding : string) (use_bias : bool) :
  (1 <= size)%Z -> (1 <= rate)%Z -> lower padding = "same"%string ->
  exists out,
    conv1d_tensor v x filters size rate padding use_bias = Ok out /\
    map (@length (list R)) out = map (@length (list R)) x.
Proof.
  intros Hs Hr Hp. unfold conv1d_tensor. rewrite Hp. simpl bind.
  rewrite layers_conv1d_same by assumption.
  eexists. split; [reflexivity|].
  rewrite map_map. apply map_ext; intros s.
  unfold tf.conv_rows. rewrite length_map, length_seq. reflexivity.
Qed.

Lemma conv1d_tensor_valid (v : conv1d_vars) (x : tensor3) (filters : option nat)
    (size rate : Z) (padding : string) (use_bias : bool) (L : nat) :
  (1 <= size)%Z -> (1 <= rate)%Z -> lower padding = "valid"%string ->
  x <> [] -> time_length L x -> ((size - 1) * rate < Z.of_nat L)%Z ->
  exists out,
    conv1d_tensor v x filters size rate padding use_bias = Ok out /\
    map (@length (list R)) out =
    map (fun s : mat => (length s - Z.to_nat ((size - 1) * rate))%nat) x.
Proof.
  intros Hs Hr Hp Hne Hx HL. unfold conv1d_tensor. rewrite Hp. simpl bind.
  rewrite layers_conv1d_valid by assumption.
  rewrite span_to_nat by assumption.
  rewrite conv_valid_Ok.
  - eexists. split; [reflexivity|]. rewrite map_map. apply map_ext; intros s.
    unfold tf.conv_rows. rewrite length_map, length_seq. reflexivity.
  - rewrite (time_dim_time_length L x Hne Hx).
    rewrite <- span_to_nat by assumption.
    assert (0 <= (size - 1) * rate)%Z by nia. lia.
Qed.

(** A [valid] convolution of a batch whose time length does not exceed
    the window span is rejected. *)
Lemma conv1d_tensor_valid_short (v : conv1d_vars) (x : tensor3)
    (filters : option nat) (size rate : Z) (padding : string) (use_bias : bool)
    (L : nat) :
  (1 <= size)%Z -> (1 <= rate)%Z -> lower padding = "valid"%string ->
  x <> [] -> time_length L x -> (Z.of_nat L <= (size - 1) * rate)%Z ->
  conv1d_tensor v x filters size rate padding use_bias = Err ShapeError.
Proof.
  intros Hs Hr Hp Hne Hx Hl. unfold conv1d_tensor. rewrite Hp. simpl bind.
  rewrite layers_conv1d_valid by assumption.
  apply conv_valid_Err. rewrite (time_dim_time_length L x Hne Hx).
  rewrite <- span_to_nat by assumption.
  assert (0 <= (size - 1) * rate)%Z by nia. lia.
Qed.

Lemma conv1d_post_lengths (v : conv1d_vars) (keep : nat -> nat -> nat -> bool)
    (x : tensor3) (filters : option nat) (size rate : Z) (padding : string)
    (dropout_rate : R) (use_bias : bool) (norm_type : option string)
    (activation_fn : option (tensor3 -> tensor3)) (training : bool) (tensor : tensor3) :
  (training = true -> 0 <= dropout_rate < 1) ->
  (forall f, activation_fn = Some f ->
     forall a, map (@length (list R)) (f a) = map (@length (list R)) a) ->
  conv1d_tensor v x filters size rate padding use_bias = Ok tensor ->
  exists out,
    conv1d v keep x filters size rate padding dropout_rate use_bias norm_type
      activation_fn training = Ok out /\
    map (@length (list R)) out = map (@length (list R)) tensor.
Proof.
  intros Hdrop Hact E.
  destruct (dropout_Ok keep dropout_rate training Hdrop) as [d [Hd [_ Hdl]]].
  unfold conv1d. rewrite E. simpl bind. rewrite Hd.
  eexists; split; [reflexivity|]. rewrite Hdl.
  destruct activation_fn as [f|].
  - rewrite (Hact f eq_refl). apply normalize_lengths.
  - apply normalize_lengths.
Qed.

Lemma conv1d_tensor_causal_lengths (v : conv1d_vars) (x : tensor3) (filters : option nat)
    (size rate : Z) (padding : string) (use_bias : bool) :
  (1 <= size)%Z -> (1 <= rate)%Z -> lower padding = "causal"%string ->
  (1 <= time_dim x)%nat ->
  exists out,
    conv1d_tensor v x filters size rate padding use_bias = Ok out /\
    map (@length (list R)) out = map (@length (list R)) x.
Proof.
  intros Hs Hr Hp Ht.
  eexists. split; [apply conv1d_tensor_causal; assumption|].
  rewrite map_map. apply map_ext; intros s. apply causal_rows_length.
Qed.

Lemma conv1d_tensor_Err (v : conv1d_vars) (keep : nat -> nat -> nat -> bool)
    (x : tensor3) (filters : option nat) (size rate : Z) (padding : string)
    (dropout_rate : R) (use_bias : bool) (norm_type : option string)
    (activation_fn : option (tensor3 -> tensor3)) (training : bool) (e : error) :
  conv1d_tensor v x filters size rate padding use_bias = Err e ->
  conv1d v keep x filters size rate padding dropout_rate use_bias norm_type
    activation_fn training = Err e.
Proof.
  intros E. unfold conv1d. rewrite E. reflexivity.
Qed.

(** C4, as amended.  For kernel size and dilation rate at least 1, a
    non-empty batch of time length [L], a dropout rate in [0, 1) while
    training and an activation that keeps the extents: [conv1d] with
    [same] padding returns a tensor of time length [L]; with [causal]
    padding it does so when [L >= 1]; with [valid] padding it returns one
    of time length [L - (size - 1) * rate] when [L > (size - 1) * rate].
    With [valid] padding and [L <= (size - 1) * rate], and with [causal]
    padding and [L = 0], it fails with a shape error. *)
Theorem conv1d_time_length (v : conv1d_vars) (keep : nat -> nat -> nat -> bool)
    (x : tensor3) (filters : option nat) (size rate : Z) (padding : string)
    (dropout_rate : R) (use_bias : bool) (norm_type : option string)
    (activation_fn : option (tensor3 -> tensor3)) (training : bool) (L : nat) :
  (1 <= size)%Z -> (1 <= rate)%Z -> x <> [] -> time_length L x ->
  (training = true -> 0 <= dropout_rate < 1) ->
  (forall f, activation_fn = Some f ->
     forall a, map (@length (list R)) (f a) = map (@length (list R)) a) ->
  (lower padding = "same"%string ->
   exists out,
     conv1d v keep x filters size rate padding dropout_rate use_bias norm_type
       activation_fn training = Ok out /\
     length out = length x /\ time_length L out) /\
  (lower padding = "causal"%string -> (1 <= L)%nat ->
   exists out,
     conv1d v keep x filters size rate padding dropout_rate use_bias norm_type
       activation_fn training = Ok out /\
     length out = length x /\ time_length L out) /\
  (lower padding = "valid"%string -> ((size - 1) * rate < Z.of_nat L)%Z ->
   exists out,
     conv1d v keep x filters size rate padding dropout_rate use_bias norm_type
       activation_fn training = Ok out /\
     length out = length x /\
     Forall (fun s : mat =>
       Z.of_nat (length s) = (Z.of_nat L - (size - 1) * rate)%Z) out) /\
  (lower padding = "valid"%string -> (Z.of_nat L <= (size - 1) * rate)%Z ->
   conv1d v keep x filters size rate padding dropout_rate use_bias norm_type
     activation_fn training = Err ShapeError) /\
  (lower padding = "causal"%string -> L = 0%nat ->
   conv1d v keep x filters size rate padding dropout_rate use_bias norm_type
     activation_fn training = Err ShapeError).
Proof.
  intros Hs Hr Hne Hx Hdrop Hact.
  pose proof (time_dim_time_length L x Hne Hx) as Htd.
  assert (Hkeep : forall tensor,
    conv1d_tensor v x filters size rate padding use_bias = Ok tensor ->
    map (@length (list R)) tensor = map (@length (list R)) x ->
    exists out,
      conv1d v keep x filters size rate padding dropout_rate use_bias norm_type
        activation_fn training = Ok out /\
      length out = length x /\ time_length L out).
  { intros tensor E Hl.
    destruct (conv1d_post_lengths v keep x filters size rate padding dropout_rate
                use_bias norm_type activation_fn training tensor Hdrop Hact E)
      as [out [Eo Ho]].
    exists out. split; [exact Eo|]. apply lengths_time_length; [congruence|assumption]. }
  split; [|split; [|split; [|split]]].
  - intros Hp.
    destruct (conv1d_tensor_same v x filters size rate padding use_bias Hs Hr Hp)
      as [tensor [E Hl]]. apply (Hkeep tensor E Hl).
  - intros Hp HL.
    destruct (conv1d_tensor_causal_lengths v x filters size rate padding use_bias
                Hs Hr Hp) as [tensor [E Hl]]; [lia|]. apply (Hkeep tensor E Hl).
  - intros Hp HL.
    destruct (conv1d_tensor_valid v x filters size rate padding use_bias L
                Hs Hr Hp Hne Hx HL) as [tensor [E Hl]].
    destruct (conv1d_post_lengths v keep x filters size rate padding dropout_rate
                use_bias norm_type activation_fn training tensor Hdrop Hact E)
      as [out [Eo Ho]].
    exists out. split; [exact Eo|]. rewrite Hl in Ho. split.
    + rewrite <- (length_map (@length (list R)) out), Ho. apply length_map.
    + unfold time_length in Hx. clear -Ho Hx HL Hs Hr.
      revert out Ho; induction Hx as [|s x Hsl _ IH]; intros [|o out] Ho;
        simpl in Ho; try discriminate; constructor.
      * injection Ho as Ho _. rewrite Ho, Hsl. nia.
      * apply IH. injection Ho as _ Ho. exact Ho.
  - intros Hp HL. apply conv1d_tensor_Err.
    apply (conv1d_tensor_valid_short v x filters size rate padding use_bias L);
      assumption.
  - intros Hp HL. apply conv1d_tensor_Err.
    apply conv1d_tensor_causal_empty; try assumption. lia.
Qed.

Lemma conv1d_time_length_witness :
  let v := {| conv := tf.Build_conv_vars [[[1]]; [[2]]; [[3]]] [0];
              norm := {| beta := [0]; gamma := [1];
                         bn := tf.Build_bn_vars [1] [0] [0] [1] |} |} in
  let keep := fun n t c : nat => Nat.even (n + t + c) in
  let x := [[[1]; [2]; [3]; [4]; [5]]] in
  (exists out,
     conv1d v keep x None 3 2 "SAME" (/ 2) true None None true = Ok out /\
     length out = 1%nat /\ time_length 5 out) /\
  (exists out,
     conv1d v keep x None 3 2 "causal" (/ 2) true None None true = Ok out /\
     length out = 1%nat /\ time_length 5 out) /\
  (exists out,
     conv1d v keep x None 3 2 "valid" (/ 2) true None None true = Ok out /\
     length out = 1%nat /\
     Forall (fun s : mat => Z.of_nat (length s) = (Z.of_nat 5 - (3 - 1) * 2)%Z) out) /\
  conv1d v keep x None 3 3 "valid" (/ 2) true None None true = Err ShapeError.
Proof.
  intros v keep x.
  assert (Hne : x <> []) by discriminate.
  assert (Hx : time_length 5 x) by (repeat constructor).
  assert (Hdrop : true = true -> 0 <= / 2 < 1) by (intros _; lra).
  assert (Hact : forall f, @None (tensor3 -> tensor3) = Some f ->
            forall a, map (@length (list R)) (f a) = map (@length (list R)) a)
    by discriminate.
  assert (H1 : (1 <= 3)%Z) by lia. assert (H2 : (1 <= 2)%Z) by lia.
  destruct (conv1d_time_length v keep x None 3 2 "SAME" (/ 2) true None None true 5
              H1 H2 Hne Hx Hdrop Hact) as [Hsame _].
  destruct (conv1d_time_length v keep x None 3 2 "causal" (/ 2) true None None true 5
              H1 H2 Hne Hx Hdrop Hact) as [_ [Hcausal _]].
  destruct (conv1d_time_length v keep x None 3 2 "valid" (/ 2) true None None true 5
              H1 H2 Hne Hx Hdrop Hact) as [_ [_ [Hvalid _]]].
  destruct (conv1d_time_length v keep x None 3 3 "valid" (/ 2) true None None true 5
              H1 H1 Hne Hx Hdrop Hact) as [_ [_ [_ [Hshort _]]]].
  split; [|split; [|split]].
  - apply Hsame. reflexivity.
  - apply Hcausal; [reflexivity|lia].
  - apply Hvalid; [reflexivity|lia].
  - apply Hshort; [reflexivity|lia].
Defined.

(** C4, as stated, fails on an input shorter than the window: with
    [valid] padding, time length 1, kernel size 3 and rate 1 the claimed
    output length is [1 - 2]; [conv1d] returns no tensor, it fails with a
    shape error. *)
Lemma conv1d_time_length_counterexample :
  let v := {| conv := tf.Build_conv_vars [[[1]]; [[2]]; [[3]]] [0];
              norm := {| beta := [0]; gamma := [1];
                         bn := tf.Build_bn_vars [1] [0] [0] [1] |} |} in
  let keep := fun _ _ _ : nat => true in
  time_length 1 [[[1]]] /\
  conv1d v keep [[[1]]] None 3 1 "valid" 0 true None None true = Err ShapeError /\
  ~ (exists out,
       conv1d v keep [[[1]]] None 3 1 "valid" 0 true None None true = Ok out).
Proof.
  intros v keep. split; [repeat constructor|].
  assert (E : conv1d v keep [[[1]]] None 3 1 "valid" 0 true None None true
              = Err ShapeError).
  { apply conv1d_tensor_Err.
    apply (conv1d_tensor_valid_short v [[[1]]] None 3 1 "valid" true 1);
      try lia; try reflexivity; try discriminate. repeat constructor. }
  split; [exact E|]. intros [out Ho]. rewrite E in Ho. discriminate.
Qed.

(** ** [conv1d_transpose] *)

Lemma conv1d_transpose_tensor_same (v : conv1d_transpose_vars) (x : tensor3)
    (filters : option nat) (size stride : Z) (padding : string) (use_bias : bool) :
  (1 <= size)%Z -> (1 <= stride)%Z -> lower padding = "same"%string ->
  exists out,
    conv1d_transpose_tensor v x filters size stride padding use_bias = Ok out /\
    map (@length (list R)) out =
    map (fun s : mat => (length s * Z.to_nat stride)%nat) x.
Proof.
  intros Hs Hr Hp. unfold conv1d_transpose_tensor, tf.layers_conv2d_transpose.
  destruct (Z.ltb_spec size 1); [lia|]. destruct (Z.ltb_spec stride 1); [lia|].
  rewrite Hp. simpl. eexists. split; [reflexivity|].
  unfold tf.squeeze1, tf.expand_dims1. rewrite !map_map. apply map_ext; intros s.
  simpl. rewrite length_map, length_seq. lia.
Qed.

Lemma conv1d_transpose_post_lengths (v : conv1d_transpose_vars)
    (keep : nat -> nat -> nat -> bool) (x : tensor3) (filters : option nat)
    (size stride : Z) (padding : string) (dropout_rate : R) (norm_type : option string)
    (activation : option (tensor3 -> tensor3)) (training use_bias : bool)
    (tensor : tensor3) :
  (training = true -> 0 <= dropout_rate < 1) ->
  (forall f, activation = Some f ->
     forall a, map (@length (list R)) (f a) = map (@length (list R)) a) ->
  conv1d_transpose_tensor v x filters size stride padding use_bias = Ok tensor ->
  exists out,
    conv1d_transpose v keep x filters size stride padding dropout_rate norm_type
      activation training use_bias = Ok out /\
    map (@length (list R)) out = map (@length (list R)) tensor.
Proof.
  intros Hdrop Hact E.
  destruct (dropout_Ok keep dropout_rate training Hdrop) as [d [Hd [_ Hdl]]].
  unfold conv1d_transpose. rewrite E. simpl bind. rewrite Hd.
  eexists; split; [reflexivity|]. rewrite Hdl.
  destruct activation as [f|].
  - rewrite (Hact f eq_refl). apply normalize_lengths.
  - apply normalize_lengths.
Qed.

Lemma scaled_lengths (L : nat) (k : Z) (f : nat -> nat) (x out : tensor3) :
  time_length L x ->
  (Z.of_nat (f L) = k)%Z ->
  map (@length (list R)) out = map (fun s : mat => f (length s)) x ->
  length out = length x /\
  Forall (fun s : mat => Z.of_nat (length s) = k) out.
Proof.
  intros Hx Hk Ho. split.
  - rewrite <- (length_map (@length (list R)) out), Ho. apply length_map.
  - unfold time_length in Hx.
    revert out Ho; induction Hx as [|s x Hsl _ IH]; intros [|o out] Ho;
      simpl in Ho; try discriminate; constructor.
    + injection Ho as Ho _. rewrite Ho, Hsl. exact Hk.
    + apply IH. injection Ho as _ Ho. exact Ho.
Qed.

(** C5. For kernel size and stride at least 1 and an input of time length
    [L], the transposed convolution of [conv1d_transpose] with [same]
    padding returns a tensor of time length [L * stride]: it is the
    transposed 2-D convolution of the input with a singleton axis
    inserted at position 1, that axis removed again.  [conv1d_transpose]
    returns a tensor of that time length whenever its dropout rate lies
    in [0, 1) while training. *)
Theorem conv1d_transpose_time_length (v : conv1d_transpose_vars)
    (keep : nat -> nat -> nat -> bool) (x : tensor3) (filters : option nat)
    (size stride : Z) (padding : string) (dropout_rate : R) (norm_type : option string)
    (activation : option (tensor3 -> tensor3)) (training use_bias : bool) (L : nat) :
  (1 <= size)%Z -> (1 <= stride)%Z -> lower padding = "same"%string ->
  time_length L x ->
  (forall f, activation = Some f ->
     forall a, map (@length (list R)) (f a) = map (@length (list R)) a) ->
  conv1d_transpose_tensor v x filters size stride padding use_bias =
    (tensor <- tf.layers_conv2d_transpose (deconv v) (tf.expand_dims1 x)
                 (match filters with None => channels x | Some f => f end)
                 size stride padding use_bias ;;
     Ok (tf.squeeze1 tensor)) /\
  (exists tensor,
     conv1d_transpose_tensor v x filters size stride padding use_bias = Ok tensor /\
     length tensor = length x /\
     Forall (fun s : mat => Z.of_nat (length s) = (Z.of_nat L * stride)%Z) tensor) /\
  ((training = true -> 0 <= dropout_rate < 1) ->
   exists out,
     conv1d_transpose v keep x filters size stride padding dropout_rate norm_type
       activation training use_bias = Ok out /\
     length out = length x /\
     Forall (fun s : mat => Z.of_nat (length s) = (Z.of_nat L * stride)%Z) out).
Proof.
  intros Hs Hr Hp Hx Hact. split; [reflexivity|].
  destruct (conv1d_transpose_tensor_same v x filters size stride padding use_bias
              Hs Hr Hp) as [tensor [E Hl]].
  assert (Hk : Z.of_nat (L * Z.to_nat stride) = (Z.of_nat L * stride)%Z) by nia.
  split.
  - exists tensor. split; [exact E|].
    apply (scaled_lengths L _ (fun l => (l * Z.to_nat stride)%nat) x tensor Hx Hk Hl).
  - intros Hdrop.
    destruct (conv1d_transpose_post_lengths v keep x filters size stride padding
                dropout_rate norm_type activation training use_bias tensor Hdrop Hact E)
      as [out [Eo Ho]].
    exists out. split; [exact Eo|]. rewrite Hl in Ho.
    apply (scaled_lengths L _ (fun l => (l * Z.to_nat stride)%nat) x out Hx Hk Ho).
Qed.

Lemma conv1d_transpose_time_length_witness :
  let v := {| deconv := tf.Build_deconv_vars [[[[1]]; [[2]]; [[3]]]] [0];
              tnorm := {| beta := [0]; gamma := [1];
                          bn := tf.Build_bn_vars [1] [0] [0] [1] |} |} in
  let keep := fun n t c : nat => Nat.even (n + t + c) in
  let x := [[[1]; [2]; [3]; [4]; [5]; [6]; [7]; [8]; [9]; [10]]] in
  exists out,
    conv1d_transpose v keep x None 3 2 "same" (/ 2) None None true true = Ok out /\
    length out = 1%nat /\
    Forall (fun s : mat => Z.of_nat (length s) = 20%Z) out.
Proof.
  intros v keep x.
  destruct (conv1d_transpose_time_length v keep x None 3 2 "same" (/ 2) None None
              true true 10) as [_ [_ H]].
  - lia.
  - lia.
  - reflexivity.
  - repeat constructor.
  - discriminate.
  - apply H. intros _. lra.
Defined.

(** * Further properties *)

(** ** [embed]: what is looked up *)

Lemma Forall2_nth_rel {A B : Type} (P : A -> B -> Prop) (l : list A) (l' : list B)
    (i : nat) (d : A) (d' : B) :
  Forall2 P l l' -> (i < length l)%nat -> P (nth i l d) (nth i l' d').
Proof.
  intros H. revert i; induction H as [|a b l l' Hab _ IH]; intros i Hi; simpl in *;
    [lia|]. destruct i as [|i]; [assumption|]. apply IH. lia.
Qed.

(** X1. With [zero_pad], the stored row 0 never reaches the output: two
    stored tables that agree from row 1 on give the same result on every
    input. *)
Theorem embed_zero_pad_ignores_row0 (s1 s2 : mat) (inputs : list (list Z))
    (vocab_size num_units : nat) :
  has_shape2 vocab_size num_units s1 = true ->
  has_shape2 vocab_size num_units s2 = true ->
  skipn 1 s1 = skipn 1 s2 ->
  embed s1 inputs vocab_size num_units true = embed s2 inputs vocab_size num_units true.
Proof.
  intros H1 H2 H. rewrite !embed_unfold by assumption.
  unfold effective_table. rewrite H. reflexivity.
Qed.

Lemma embed_zero_pad_ignores_row0_witness :
  embed [[5; 7]; [1; 2]] [[1%Z; 0%Z]] 2 2 true =
  embed [[8; 9]; [1; 2]] [[1%Z; 0%Z]] 2 2 true.
Proof.
  apply (embed_zero_pad_ignores_row0 [[5; 7]; [1; 2]] [[8; 9]; [1; 2]]);
    reflexivity.
Defined.

(** X2. Whenever [embed] returns, the vector at position [i, j] of the
    result is the row of the looked-up table that the id at [i, j]
    names: the stored row itself without [zero_pad]. *)
Theorem embed_lookup (stored : mat) (inputs : list (list Z))
    (vocab_size num_units : nat) (zero_pad : bool) (out : list (list (list R)))
    (i j : nat) :
  embed stored inputs vocab_size num_units zero_pad = Ok out ->
  (i < length inputs)%nat -> (j < length (nth i inputs []))%nat ->
  (0 <= nth j (nth i inputs []) 0 <
     Z.of_nat (length (effective_table stored num_units zero_pad)))%Z /\
  nth j (nth i out []) [] =
    nth (Z.to_nat (nth j (nth i inputs []) 0%Z))
        (effective_table stored num_units zero_pad) [] /\
  (zero_pad = false ->
   nth j (nth i out []) [] = nth (Z.to_nat (nth j (nth i inputs []) 0%Z)) stored []).
Proof.
  intros E Hi Hj.
  assert (Hs : has_shape2 vocab_size num_units stored = true).
  { unfold embed, tf.get_variable in E.
    destruct (has_shape2 vocab_size num_units stored); [reflexivity|discriminate]. }
  rewrite embed_unfold in E by assumption.
  unfold tf.embedding_lookup in E. apply mapM_Ok_Forall2 in E.
  pose proof (Forall2_nth_rel _ _ _ i [] [] E Hi) as Er. simpl in Er.
  apply mapM_Ok_Forall2 in Er.
  pose proof (Forall2_nth_rel _ _ _ j 0%Z [] Er Hj) as Ev. simpl in Ev.
  destruct (lookup_row_cases (effective_table stored num_units zero_pad)
              (nth j (nth i inputs []) 0%Z)) as [Hin|Hout].
  - rewrite lookup_row_Ok in Ev by assumption. injection Ev as Ev.
    split; [assumption|]. split; [symmetry; assumption|].
    intros ->. symmetry. assumption.
  - rewrite lookup_row_Err in Ev by assumption. discriminate.
Qed.

Lemma embed_lookup_witness :
  nth 1 (nth 0 [[[1; 2]; [5; 7]]] []) [] = nth (Z.to_nat 0) [[5; 7]; [1; 2]] [].
Proof.
  destruct (embed_lookup [[5; 7]; [1; 2]] [[1%Z; 0%Z]] 2 2 false [[[1; 2]; [5; 7]]] 0 1)
    as [_ [_ H]].
  - reflexivity.
  - simpl. lia.
  - simpl. lia.
  - apply H. reflexivity.
Defined.

(** ** [normalize]: shape, masking and statistics *)

Lemma unmasked_affine (g b : vec) (F : mat -> vec -> vec) (x : tensor3) :
  bcast3 Rplus (bcast3 Rmult [[g]] (map (fun s => map (F s) s) x)) [[b]] =
  map (fun s => map (fun r => bcast Rplus (bcast Rmult g (F s r)) b) s) x.
Proof.
  rewrite bcast3_scale, bcast3_shift, !map_map.
  apply map_ext; intros s. rewrite !map_map. reflexivity.
Qed.

Lemma sign_abs_nonzero (a : R) : a <> 0 -> tf.sign (Rabs a) = 1.
Proof.
  intros H. unfold tf.sign.
  destruct (Rlt_dec 0 (Rabs a)) as [_|Hn]; [reflexivity|].
  exfalso. apply Hn, Rabs_pos_lt, H.
Qed.

Lemma map_mult_one (l : vec) : map (fun a => a * 1) l = l.
Proof.
  induction l as [|a l IH]; simpl; [reflexivity|]. rewrite IH. f_equal. lra.
Qed.

Lemma nth2_map_rows (F : mat -> vec -> vec) (x : tensor3) (i j : nat) :
  (i < length x)%nat -> (j < length (nth i x []))%nat ->
  nth j (nth i (map (fun s => map (F s) s) x) []) [] =
  F (nth i x []) (nth j (nth i x []) []).
Proof.
  intros Hi Hj.
  rewrite (nth_map_lt (fun s => map (F s) s) x i []) by assumption.
  rewrite (nth_map_lt (F (nth i x [])) (nth i x []) j []) by assumption.
  reflexivity.
Qed.

Lemma masked_vs_unmasked (g b : vec) (F : mat -> vec -> vec) (x : tensor3) (i j : nat) :
  (i < length x)%nat -> (j < length (nth i x []))%nat ->
  sum (nth j (nth i x []) []) <> 0 ->
  nth j (nth i
    (bcast3 Rplus
       (bcast3 Rmult [[g]]
          (bcast3 Rmult (map (fun s => map (F s) s) x)
             (map3 tf.sign (map3 Rabs (tf.reduce_sum_last x))))) [[b]]) []) [] =
  nth j (nth i
    (bcast3 Rplus (bcast3 Rmult [[g]] (map (fun s => map (F s) s) x)) [[b]]) []) [].
Proof.
  intros Hi Hj Hs. rewrite masked_affine, unmasked_affine.
  rewrite (nth2_map_rows (fun s r =>
    bcast Rplus
      (bcast Rmult g (map (fun a => a * tf.sign (Rabs (sum r))) (F s r))) b))
    by assumption.
  rewrite (nth2_map_rows (fun s r => bcast Rplus (bcast Rmult g (F s r)) b))
    by assumption.
  rewrite sign_abs_nonzero by assumption. rewrite map_mult_one. reflexivity.
Qed.

(** X4. Masking changes nothing at a position whose input does not sum to
    zero: there the output with [masking] is the output without it. *)
Theorem normalize_mask_only_zero_sum (v : norm_vars) (x : tensor3) (type : option string)
    (eps : R) (training : bool) (i j : nat) :
  type = Some "ln"%string \/ type = Some "ins"%string ->
  (i < length x)%nat -> (j < length (nth i x []))%nat ->
  sum (nth j (nth i x []) []) <> 0 ->
  nth j (nth i (normalize v x type eps training true) []) [] =
  nth j (nth i (normalize v x type eps training false) []) [].
Proof.
  intros Ht Hi Hj Hs. rewrite !normalize_layer_instance by assumption. cbv zeta.
  destruct Ht as [-> | ->];
    match goal with |- context [type_is ?a ?b] =>
      let e := eval vm_compute in (type_is a b) in change (type_is a b) with e
    end; cbv iota.
  - rewrite normalized_at_layer.
    apply (masked_vs_unmasked _ _ (fun _ r =>
      map (fun a => (a - tf.mean r) * tf.rsqrt (tf.variance r + eps)) r));
      assumption.
  - rewrite normalized_at_instance.
    apply (masked_vs_unmasked _ _ (fun s r =>
      bcast Rmult
        (bcast Rminus r (map (fun c => tf.mean (column 0 c s)) (seq 0 (channels x))))
        (map (fun c => tf.rsqrt (tf.variance (column 0 c s) + eps))
           (seq 0 (channels x))))); assumption.
Qed.

Lemma normalize_mask_only_zero_sum_witness :
  let v := {| beta := [5; 7]; gamma := [2; 3]; bn := tf.Build_bn_vars [] [] [] [] |} in
  nth 1 (nth 0 (normalize v [[[1; -1]; [2; 3]]] (Some "ln"%string) (/ 100000000)
                  true true) []) [] =
  nth 1 (nth 0 (normalize v [[[1; -1]; [2; 3]]] (Some "ln"%string) (/ 100000000)
                  true false) []) [].
Proof.
  intros v.
  apply (normalize_mask_only_zero_sum v [[[1; -1]; [2; 3]]] (Some "ln"%string)
           (/ 100000000) true 0 1).
  - left; reflexivity.
  - simpl. lia.
  - simpl. lia.
  - simpl. lra.
Defined.

Lemma mean_shift (k : R) (r : vec) :
  r <> [] -> tf.mean (map (fun a => a + k) r) = tf.mean r + k.
Proof.
  intros Hr. unfold tf.mean. rewrite length_map.
  assert (E : sum (map (fun a => a + k) r) = sum r + INR (length r) * k).
  { clear Hr. induction r as [|a r IH]; [simpl; lra|].
    change (sum (map (fun a0 => a0 + k) (a :: r)))
      with ((a + k) + sum (map (fun a0 => a0 + k) r)).
    change (sum (a :: r)) with (a + sum r).
    change (length (a :: r)) with (S (length r)).
    rewrite IH, S_INR. lra. }
  rewrite E.
  assert (H : INR (length r) <> 0).
  { apply not_0_INR. destruct r; [contradiction|discriminate]. }
  field. assumption.
Qed.

Lemma variance_shift (k : R) (r : vec) :
  tf.variance (map (fun a => a + k) r) = tf.variance r.
Proof.
  destruct r as [|a0 r0]; [reflexivity|].
  set (r := a0 :: r0). unfold tf.variance.
  rewrite mean_shift by discriminate. rewrite map_map.
  unfold tf.mean at 1 3. rewrite !length_map. f_equal. f_equal.
  apply map_ext. intros a. f_equal. lra.
Qed.

(** X5. The layer mode is invariant under a shift of the input: adding one
    constant to every element of the input leaves the output unchanged. *)
Theorem normalize_layer_shift_invariant (v : norm_vars) (x : tensor3) (k eps : R)
    (training : bool) :
  normalize v (map3 (fun a => a + k) x) (Some "ln"%string) eps training false =
  normalize v x (Some "ln"%string) eps training false.
Proof.
  rewrite !(normalize_layer_rowwise v _ eps training false).
  unfold map3. rewrite map_map. apply map_ext; intros s.
  rewrite map_map. apply map_ext; intros r.
  rewrite variance_shift, map_map.
  destruct r as [|a0 r0]; [reflexivity|].
  rewrite mean_shift by discriminate. f_equal. f_equal.
  apply map_ext. intros a. f_equal. lra.
Qed.

Lemma sum_repeat (a : R) (c : nat) : sum (repeat a c) = INR c * a.
Proof.
  induction c as [|c IH]; [simpl; lra|].
  change (sum (repeat a (S c))) with (a + sum (repeat a c)). rewrite IH, S_INR. lra.
Qed.

Lemma mean_repeat (a : R) (c : nat) : (0 < c)%nat -> tf.mean (repeat a c) = a.
Proof.
  intros Hc. unfold tf.mean. rewrite sum_repeat, repeat_length.
  assert (H : INR c <> 0) by (apply not_0_INR; lia). field. assumption.
Qed.

Lemma map_const_zero (a k : R) (c : nat) :
  map (fun b => (b - a) * k) (repeat a c) = repeat 0 c.
Proof.
  induction c as [|c IH]; simpl; [reflexivity|]. rewrite IH. f_equal. lra.
Qed.

(** X6. In the layer mode, without masking and with a positive [epsilon],
    a position whose channels all hold the same value is mapped to the
    shift [beta]: the normalised vector is zero there. *)
Theorem normalize_layer_constant_row (v : norm_vars) (x : tensor3) (eps a : R)
    (training : bool) (c i j : nat) :
  0 < eps -> (0 < c)%nat -> length (gamma v) = c -> length (beta v) = c ->
  (i < length x)%nat -> (j < length (nth i x []))%nat ->
  nth j (nth i x []) [] = repeat a c ->
  nth j (nth i (normalize v x (Some "ln"%string) eps training false) []) [] = beta v.
Proof.
  intros Heps Hc Hg Hb Hi Hj Hr.
  rewrite (normalize_layer_rowwise v x eps training false).
  rewrite (nth2_map_rows (fun _ r =>
    bcast Rplus
      (bcast Rmult (gamma v)
         (map (fun a0 => (a0 - tf.mean r) * tf.rsqrt (tf.variance r + eps)) r))
      (beta v))) by assumption.
  rewrite Hr, mean_repeat, map_const_zero by assumption.
  rewrite (bcast_same_length Rmult) by (rewrite repeat_length; assumption).
  rewrite <- Hg, map2_mult_zeros.
  rewrite bcast_same_length by (rewrite repeat_length; congruence).
  rewrite Hg, <- Hb. apply map2_plus_zeros.
Qed.

Lemma normalize_layer_constant_row_witness :
  let v := {| beta := [5; 7]; gamma := [2; 3]; bn := tf.Build_bn_vars [] [] [] [] |} in
  nth 0 (nth 0 (normalize v [[[4; 4]; [2; 3]]] (Some "ln"%string) (/ 100000000)
                  true false) []) [] = [5; 7].
Proof.
  intros v.
  apply (normalize_layer_constant_row v [[[4; 4]; [2; 3]]] (/ 100000000) 4 true 2 0 0).
  - lra.
  - lia.
  - reflexivity.
  - reflexivity.
  - simpl. lia.
  - simpl. lia.
  - reflexivity.
Defined.

Lemma shape3_In (n t c : nat) (x : tensor3) (s : mat) (r : vec) :
  shape3 n t c x -> In s x -> In r s ->
  length s = t /\ length r = c /\ (0 < n)%nat /\ (0 < t)%nat.
Proof.
  intros [Hn Hx] Hs Hr. rewrite Forall_forall in Hx.
  destruct (Hx s Hs) as [Ht Hc]. rewrite Forall_forall in Hc.
  split; [assumption|]. split; [apply Hc, Hr|].
  split.
  - destruct x; [contradiction|]. simpl in Hn. lia.
  - destruct s; [contradiction|]. simpl in Ht. lia.
Qed.

Lemma shape3_map_rows (n t c : nat) (x : tensor3) (F : mat -> vec -> vec) :
  shape3 n t c x ->
  (forall s r, In s x -> In r s -> length (F s r) = c) ->
  shape3 n t c (map (fun s => map (F s) s) x).
Proof.
  intros Hx HF. split.
  - rewrite length_map. apply Hx.
  - apply Forall_forall. intros s' Hs'. apply in_map_iff in Hs' as [s [<- Hs]].
    split.
    + rewrite length_map. destruct Hx as [_ Hx]. rewrite Forall_forall in Hx.
      apply (Hx s Hs).
    + apply Forall_forall. intros r' Hr'. apply in_map_iff in Hr' as [r [<- Hr]].
      apply HF; assumption.
Qed.

Lemma concat_expand_dims (x : tensor3) :
  concat (concat (tf.expand_dims1 x)) = concat x.
Proof.
  unfold tf.expand_dims1. induction x as [|s x IH]; simpl; [reflexivity|].
  rewrite IH. reflexivity.
Qed.

(** The batch mode on a rank-3 tensor, written out: every row is
    normalised with the per-channel statistics [m] and [s]. *)
Lemma normalize_batch_rows (v : norm_vars) (x : tensor3) (eps : R)
    (training masking : bool) :
  normalize v x (Some "bn"%string) eps training masking =
  map (map (fun row =>
    bcast Rplus
      (bcast Rmult
         (bcast Rminus row
            (if training
             then map (fun c => tf.mean (column 0 c (concat x)))
                      (seq 0 (length (tf.bn_gamma (bn v))))
             else tf.moving_mean (bn v)))
         (bcast Rmult
            (map (fun a => tf.rsqrt (a + / 1000))
               (if training
                then map (fun c => tf.variance (column 0 c (concat x)))
                         (seq 0 (length (tf.bn_gamma (bn v))))
                else tf.moving_variance (bn v)))
            (tf.bn_gamma (bn v))))
      (tf.bn_beta (bn v)))) x.
Proof.
  unfold normalize. change (type_is (Some "bn"%string) "bn") with true. cbv iota zeta.
  unfold tf.batch_normalization. rewrite concat_expand_dims.
  unfold tf.squeeze1, tf.expand_dims1. rewrite !map_map. reflexivity.
Qed.

(** X3. [normalize] returns a tensor of the shape of its input, in every
    mode, when the learned variables have one entry per channel. *)
Theorem normalize_shape (v : norm_vars) (x : tensor3) (type : option string) (eps : R)
    (training masking : bool) (n t c : nat) :
  shape3 n t c x ->
  length (gamma v) = c -> length (beta v) = c ->
  length (tf.bn_gamma (bn v)) = c -> length (tf.bn_beta (bn v)) = c ->
  length (tf.moving_mean (bn v)) = c -> length (tf.moving_variance (bn v)) = c ->
  shape3 n t c (normalize v x type eps training masking).
Proof.
  intros Hx Hg Hb Hbg Hbb Hmm Hmv.
  assert (Haff : forall F : mat -> vec -> vec,
    (forall s r, In s x -> In r s -> length (F s r) = c) ->
    shape3 n t c
      (map (fun s => map (fun r => bcast Rplus (bcast Rmult (gamma v) (F s r)) (beta v)) s)
         x)).
  { intros F HF.
    apply (shape3_map_rows n t c x
             (fun s r => bcast Rplus (bcast Rmult (gamma v) (F s r)) (beta v)) Hx).
    intros s r Hs Hr. rewrite !bcast_length; rewrite ?bcast_length;
      rewrite ?HF by assumption; congruence. }
  assert (Hmask : forall (F : mat -> vec -> vec),
    (forall s r, In s x -> In r s -> length (F s r) = c) ->
    shape3 n t c
      (bcast3 Rplus
         (bcast3 Rmult [[gamma v]]
            (if masking
             then bcast3 Rmult (map (fun s => map (F s) s) x)
                    (map3 tf.sign (map3 Rabs (tf.reduce_sum_last x)))
             else map (fun s => map (F s) s) x)) [[beta v]])).
  { intros F HF. destruct masking.
    - rewrite masked_affine.
      apply (Haff (fun s r => map (fun a => a * tf.sign (Rabs (sum r))) (F s r))).
      intros s r Hs Hr. rewrite length_map. apply HF; assumption.
    - rewrite unmasked_affine. apply Haff, HF. }
  destruct (type_is type "bn") eqn:Ebn.
  - destruct type as [ty|]; [|discriminate]. apply type_is_eq in Ebn as ->.
    rewrite normalize_batch_rows.
    apply (shape3_map_rows n t c x (fun _ row => _) Hx).
    intros s r Hs Hr. destruct (shape3_In n t c x s r Hx Hs Hr) as [_ [Hc _]].
    assert (H1 : length (if training
             then map (fun c0 => tf.mean (column 0 c0 (concat x)))
                      (seq 0 (length (tf.bn_gamma (bn v))))
             else tf.moving_mean (bn v)) = c).
    { destruct training; [rewrite length_map, length_seq|]; assumption. }
    assert (H2 : length (if training
                then map (fun c0 => tf.variance (column 0 c0 (concat x)))
                         (seq 0 (length (tf.bn_gamma (bn v))))
                else tf.moving_variance (bn v)) = c).
    { destruct training; [rewrite length_map, length_seq|]; assumption. }
    set (m := if training then _ else _) in H1 |- *.
    set (sd := if training then _ else _) in H2 |- *.
    assert (Hinv : length (bcast Rmult (map (fun a => tf.rsqrt (a + / 1000)) sd)
                             (tf.bn_gamma (bn v))) = c).
    { rewrite bcast_length; rewrite length_map; congruence. }
    assert (Hsub : length (bcast Rminus r m) = c).
    { rewrite bcast_length; congruence. }
    rewrite bcast_length; rewrite bcast_length; congruence.
  - destruct (type_is type "ln") eqn:Eln.
    + destruct type as [ty|]; [|discriminate]. apply type_is_eq in Eln as ->.
      rewrite normalize_layer_instance by (left; reflexivity). cbv zeta.
      change (type_is (Some "ln"%string) "ln") with true. cbv iota.
      rewrite normalized_at_layer.
      apply (Hmask (fun _ r =>
        map (fun a => (a - tf.mean r) * tf.rsqrt (tf.variance r + eps)) r)).
      intros s r Hs Hr. rewrite length_map.
      apply (shape3_In n t c x s r Hx Hs Hr).
    + destruct (type_is type "ins") eqn:Eins.
      * destruct type as [ty|]; [|discriminate]. apply type_is_eq in Eins as ->.
        rewrite normalize_layer_instance by (right; reflexivity). cbv zeta.
        change (type_is (Some "ins"%string) "ln") with false. cbv iota.
        rewrite normalized_at_instance.
        apply (Hmask (fun s r =>
          bcast Rmult
            (bcast Rminus r (map (fun c => tf.mean (column 0 c s)) (seq 0 (channels x))))
            (map (fun c => tf.rsqrt (tf.variance (column 0 c s) + eps))
               (seq 0 (channels x))))).
        intros s r Hs Hr.
        destruct (shape3_In n t c x s r Hx Hs Hr) as [_ [Hc [Hn Ht]]].
        rewrite (shape3_channels n t c x Hx Hn Ht).
        rewrite !bcast_length; rewrite ?bcast_length;
          rewrite ?length_map, ?length_seq; congruence.
      * unfold normalize. rewrite Ebn, Eln, Eins. assumption.
Qed.

Lemma normalize_shape_witness :
  let v := {| beta := [5; 7]; gamma := [2; 3];
              bn := tf.Build_bn_vars [1; 1] [0; 0] [0; 0] [1; 1] |} in
  shape3 1 2 2 (normalize v [[[1; -1]; [2; 3]]] (Some "bn"%string) (/ 100000000) true false)
  /\
  shape3 1 2 2 (normalize v [[[1; -1]; [2; 3]]] (Some "ins"%string) (/ 100000000) true true).
Proof.
  intros v. split;
    apply (normalize_shape v [[[1; -1]; [2; 3]]] _ (/ 100000000) true _ 1 2 2
             shape3_example); reflexivity.
Defined.

Lemma mean_affine_centered (k b : R) (l : vec) :
  l <> [] -> tf.mean (map (fun a => (a - tf.mean l) * k + b) l) = b.
Proof.
  intros Hl.
  rewrite <- (map_map (fun a => (a - tf.mean l) * k) (fun a => a + b)).
  rewrite mean_shift by (destruct l; [contradiction|discriminate]).
  rewrite mean_scaled_centered. lra.
Qed.

Lemma variance_affine_centered (k b : R) (l : vec) :
  tf.variance (map (fun a => (a - tf.mean l) * k + b) l) = tf.variance l * (k * k).
Proof.
  rewrite <- (map_map (fun a => (a - tf.mean l) * k) (fun a => a + b)).
  rewrite variance_shift. apply variance_scaled_centered.
Qed.

Lemma nth_seq_map {A : Type} (f : nat -> A) (c k : nat) (d : A) :
  (k < c)%nat -> nth k (map f (seq 0 c)) d = f k.
Proof.
  intros H. rewrite (nth_map_lt f (seq 0 c) k 0%nat) by (rewrite length_seq; assumption).
  rewrite seq_nth by assumption. reflexivity.
Qed.

(** Channel [k] of a row normalised with per-channel statistics. *)
Lemma nth_normalized_row (r m sd : vec) (c k : nat) :
  length r = c -> length m = c -> length sd = c -> (k < c)%nat ->
  nth k (bcast Rmult (bcast Rminus r m) sd) 0 = (nth k r 0 - nth k m 0) * nth k sd 0.
Proof.
  intros Hr Hm Hs Hk.
  rewrite (nth_bcast Rmult _ _ k 0 0)
    by (rewrite bcast_length; congruence || lia).
  rewrite (nth_bcast Rminus _ _ k 0 0) by (congruence || lia).
  reflexivity.
Qed.

(** X7. The instance mode: in every sequence and every channel, the
    normalised values have mean 0 over the time axis, and their variance
    is [s / (s + epsilon)] for the variance [s] of that channel over
    time. *)
Theorem instance_norm_statistics (x : tensor3) (eps : R) (n t c i k : nat) :
  0 < eps -> shape3 n t c x -> (i < n)%nat -> (0 < t)%nat -> (k < c)%nat ->
  tf.mean (column 0 k (nth i (normalized_at x 1%Z eps) [])) = 0 /\
  tf.variance (column 0 k (nth i (normalized_at x 1%Z eps) [])) =
    tf.variance (column 0 k (nth i x [])) / (tf.variance (column 0 k (nth i x [])) + eps).
Proof.
  intros Heps Hx Hi Ht Hk.
  assert (Hn : length x = n) by apply Hx.
  assert (Hch : channels x = c) by (apply (shape3_channels n t c); assumption || lia).
  rewrite normalized_at_instance, Hch.
  rewrite (nth_map_lt _ x i []) by lia.
  set (s := nth i x []).
  assert (Hs : In s x) by (apply nth_In; lia).
  set (col := column 0 k s).
  assert (E : column 0 k
    (map (fun r => bcast Rmult
            (bcast Rminus r (map (fun c0 => tf.mean (column 0 c0 s)) (seq 0 c)))
            (map (fun c0 => tf.rsqrt (tf.variance (column 0 c0 s) + eps)) (seq 0 c))) s) =
    map (fun a => (a - tf.mean col) * tf.rsqrt (tf.variance col + eps)) col).
  { unfold col, column. rewrite !map_map. apply map_ext_in. intros r Hr.
    destruct (shape3_In n t c x s r Hx Hs Hr) as [_ [Hc _]].
    rewrite (nth_normalized_row r _ _ c k)
      by (rewrite ?length_map, ?length_seq; assumption || reflexivity).
    rewrite !nth_seq_map by assumption. reflexivity. }
  rewrite E. pose proof (variance_nonneg col) as Hv.
  split; [apply mean_scaled_centered|].
  rewrite variance_scaled_centered, rsqrt_sqr by lra. reflexivity.
Qed.

Lemma instance_norm_statistics_witness :
  tf.mean (column 0 1 (nth 0 (normalized_at [[[1; -1]; [2; 3]]] 1%Z (/ 100000000)) [])) = 0.
Proof.
  destruct (instance_norm_statistics [[[1; -1]; [2; 3]]] (/ 100000000) 1 2 2 0 1)
    as [H _].
  - lra.
  - exact shape3_example.
  - lia.
  - lia.
  - lia.
  - exact H.
Defined.

Lemma column_map_rows (F : vec -> vec) (g : R -> R) (rows : mat) (k : nat) :
  (forall r, In r rows -> nth k (F r) 0 = g (nth k r 0)) ->
  column 0 k (map F rows) = map g (column 0 k rows).
Proof.
  intros H. unfold column. rewrite !map_map. apply map_ext_in. exact H.
Qed.

Lemma shape3_concat (n t c : nat) (x : tensor3) :
  shape3 n t c x -> Forall (fun r : vec => length r = c) (concat x).
Proof.
  intros Hx. apply Forall_forall. intros r Hr.
  apply in_concat in Hr as [s [Hs Hr]].
  apply (shape3_In n t c x s r Hx Hs Hr).
Qed.

Lemma shape3_concat_nonempty (n t c : nat) (x : tensor3) :
  shape3 n t c x -> (0 < n)%nat -> (0 < t)%nat -> concat x <> [].
Proof.
  intros [Hn Hx] Hn0 Ht0. destruct x as [|s x]; [simpl in Hn; lia|].
  inversion Hx as [|? ? [Hs _] _]; subst. destruct s as [|r s]; [simpl in Ht0; lia|].
  discriminate.
Qed.

(** X8. The batch mode while training: over the batch and time axes, every
    output channel has mean [beta] and variance
    [gamma^2 * s / (s + 0.001)], for the variance [s] of the input
    channel. *)
Theorem batch_norm_training_statistics (v : norm_vars) (x : tensor3) (eps : R)
    (masking : bool) (n t c k : nat) :
  shape3 n t c x -> (0 < n)%nat -> (0 < t)%nat -> (k < c)%nat ->
  length (tf.bn_gamma (bn v)) = c -> length (tf.bn_beta (bn v)) = c ->
  tf.mean (column 0 k (concat (normalize v x (Some "bn"%string) eps true masking))) =
    nth k (tf.bn_beta (bn v)) 0 /\
  tf.variance (column 0 k (concat (normalize v x (Some "bn"%string) eps true masking))) =
    nth k (tf.bn_gamma (bn v)) 0 * nth k (tf.bn_gamma (bn v)) 0 *
    (tf.variance (column 0 k (concat x)) / (tf.variance (column 0 k (concat x)) + / 1000)).
Proof.
  intros Hx Hn Ht Hk Hg Hb.
  rewrite normalize_batch_rows, <- concat_map, Hg.
  set (rows := concat x).
  pose proof (shape3_concat n t c x Hx) as Hrows. fold rows in Hrows.
  rewrite Forall_forall in Hrows.
  set (col := column 0 k rows).
  set (K := tf.rsqrt (tf.variance col + / 1000) * nth k (tf.bn_gamma (bn v)) 0).
  assert (E : column 0 k
    (map (fun row =>
       bcast Rplus
         (bcast Rmult
            (bcast Rminus row (map (fun c0 => tf.mean (column 0 c0 rows)) (seq 0 c)))
            (bcast Rmult
               (map (fun a => tf.rsqrt (a + / 1000))
                  (map (fun c0 => tf.variance (column 0 c0 rows)) (seq 0 c)))
               (tf.bn_gamma (bn v))))
         (tf.bn_beta (bn v))) rows) =
    map (fun a => (a - tf.mean col) * K + nth k (tf.bn_beta (bn v)) 0) col).
  { apply (column_map_rows _ (fun a => (a - tf.mean col) * K + nth k (tf.bn_beta (bn v)) 0)).
    intros r Hr. pose proof (Hrows r Hr) as Hc.
    assert (Hinv : length (bcast Rmult
               (map (fun a => tf.rsqrt (a + / 1000))
                  (map (fun c0 => tf.variance (column 0 c0 rows)) (seq 0 c)))
               (tf.bn_gamma (bn v))) = c).
    { rewrite bcast_length; rewrite !length_map, length_seq; congruence. }
    assert (Hsub : length (bcast Rminus r
               (map (fun c0 => tf.mean (column 0 c0 rows)) (seq 0 c))) = c).
    { rewrite bcast_length; rewrite ?length_map, ?length_seq; congruence. }
    assert (Hmul : length (bcast Rmult
               (bcast Rminus r (map (fun c0 => tf.mean (column 0 c0 rows)) (seq 0 c)))
               (bcast Rmult
                  (map (fun a => tf.rsqrt (a + / 1000))
                     (map (fun c0 => tf.variance (column 0 c0 rows)) (seq 0 c)))
                  (tf.bn_gamma (bn v)))) = c).
    { rewrite bcast_length; congruence. }
    rewrite (nth_bcast Rplus _ _ k 0 0) by (congruence || lia).
    rewrite (nth_normalized_row r _ _ c k)
      by (rewrite ?length_map, ?length_seq; assumption || reflexivity).
    rewrite (nth_bcast Rmult _ _ k 0 0)
      by (rewrite !length_map, length_seq; congruence || lia).
    rewrite map_map, !nth_seq_map by assumption. reflexivity. }
  rewrite E.
  assert (Hcol : col <> []).
  { unfold col, column. pose proof (shape3_concat_nonempty n t c x Hx Hn Ht) as Hne.
    fold rows in Hne. destruct rows; [contradiction|discriminate]. }
  pose proof (variance_nonneg col) as Hv.
  split; [apply mean_affine_centered; assumption|].
  rewrite variance_affine_centered. unfold K.
  replace (tf.rsqrt (tf.variance col + / 1000) * nth k (tf.bn_gamma (bn v)) 0 *
           (tf.rsqrt (tf.variance col + / 1000) * nth k (tf.bn_gamma (bn v)) 0))
    with (nth k (tf.bn_gamma (bn v)) 0 * nth k (tf.bn_gamma (bn v)) 0 *
          (tf.rsqrt (tf.variance col + / 1000) * tf.rsqrt (tf.variance col + / 1000)))
    by ring.
  rewrite rsqrt_sqr by lra. unfold Rdiv. ring.
Qed.

Lemma batch_norm_training_statistics_witness :
  let v := {| beta := [5; 7]; gamma := [2; 3];
              bn := tf.Build_bn_vars [2; 1] [4; 6] [0; 0] [1; 1] |} in
  tf.mean (column 0 1
    (concat (normalize v [[[1; -1]; [2; 3]]] (Some "bn"%string) (/ 100000000) true false)))
  = 6.
Proof.
  intros v.
  destruct (batch_norm_training_statistics v [[[1; -1]; [2; 3]]] (/ 100000000) false
              1 2 2 1) as [H _].
  - exact shape3_example.
  - lia.
  - lia.
  - lia.
  - reflexivity.
  - reflexivity.
  - exact H.
Defined.

(** ** [highwaynet]: shape and range *)

Lemma highway_row_length (h g r : vec) (c : nat) :
  length h = c -> length g = c -> length r = c ->
  length (bcast Rplus (bcast Rmult h g) (bcast Rmult r (map (fun a => 1 - a) g))) = c.
Proof.
  intros Hh Hg Hr.
  assert (H1 : length (bcast Rmult h g) = c) by (rewrite bcast_length; congruence).
  assert (H2 : length (bcast Rmult r (map (fun a => 1 - a) g)) = c)
    by (rewrite bcast_length; rewrite ?length_map; congruence).
  rewrite bcast_length; congruence.
Qed.

Section HighwayFurther.

Variable sigmoid : R -> R.

(** The value of one output element, written out. *)
Lemma highwaynet_elt (v : highway_vars) (inputs : tensor3) (num_units : option nat)
    (n t c i j k : nat) :
  shape3 n t c inputs -> channels inputs = c ->
  num_units = None \/ num_units = Some 0%nat \/ num_units = Some c ->
  (i < n)%nat -> (j < t)%nat -> (k < c)%nat ->
  exists outputs,
    highwaynet sigmoid v inputs num_units = Ok outputs /\
    shape3 n t c outputs /\
    elt (tf.dense (dense2 v) c sigmoid inputs) i j k =
      sigmoid (dot (nth j (nth i inputs []) [])
                   (column 0 k (tf.dense_kernel (dense2 v)))
               + nth k (tf.dense_bias (dense2 v)) 0) /\
    elt outputs i j k =
      elt (tf.dense (dense1 v) c tf.relu inputs) i j k
        * elt (tf.dense (dense2 v) c sigmoid inputs) i j k
      + elt inputs i j k * (1 - elt (tf.dense (dense2 v) c sigmoid inputs) i j k).
Proof.
  intros Hx Hc Hu Hi Hj Hk. eexists.
  split; [apply highwaynet_units; eassumption|].
  destruct (shape3_nth n t c inputs i j Hx Hi Hj) as [_ Hr].
  unfold tf.dense.
  set (FH := fun row : vec => map (fun u =>
    tf.relu (dot row (column 0 u (tf.dense_kernel (dense1 v)))
             + nth u (tf.dense_bias (dense1 v)) 0)) (seq 0 c)).
  set (FT := fun row : vec => map (fun u =>
    sigmoid (dot row (column 0 u (tf.dense_kernel (dense2 v)))
             + nth u (tf.dense_bias (dense2 v)) 0)) (seq 0 c)).
  assert (HFH : forall r, length (FH r) = c)
    by (intros r; unfold FH; rewrite length_map, length_seq; reflexivity).
  assert (HFT : forall r, length (FT r) = c)
    by (intros r; unfold FT; rewrite length_map, length_seq; reflexivity).
  rewrite highway_closed. split; [|split].
  - apply (shape3_map_rows n t c inputs (fun _ r =>
      bcast Rplus (bcast Rmult (FH r) (FT r))
        (bcast Rmult r (map (fun a => 1 - a) (FT r)))) Hx).
    intros s r Hs Hr'. destruct (shape3_In n t c inputs s r Hx Hs Hr') as [_ [Hl _]].
    apply highway_row_length; [apply HFH|apply HFT|assumption].
  - rewrite (elt_map_map FT inputs n t c) by assumption.
    unfold FT. rewrite (nth_seq_map _ c k 0) by assumption. reflexivity.
  - rewrite !(elt_map_map _ inputs n t c) by assumption.
    unfold elt.
    set (r := nth j (nth i inputs []) []) in *.
    rewrite (nth_bcast Rplus _ _ k 0 0);
      rewrite ?bcast_length; rewrite ?length_map; try congruence; try lia.
    rewrite (nth_bcast Rmult _ _ k 0 0), (nth_bcast Rmult _ _ k 0 0);
      rewrite ?length_map; try congruence; try lia.
    rewrite (nth_map_lt (fun a => 1 - a) _ k 0) by (rewrite HFT; lia).
    reflexivity.
Qed.

(** X9. [highwaynet] returns a tensor of the shape of its input when
    [num_units] is left out, is 0, or is the channel count. *)
Theorem highwaynet_shape (v : highway_vars) (inputs : tensor3) (num_units : option nat)
    (n t c : nat) :
  shape3 n t c inputs -> channels inputs = c ->
  num_units = None \/ num_units = Some 0%nat \/ num_units = Some c ->
  exists outputs,
    highwaynet sigmoid v inputs num_units = Ok outputs /\ shape3 n t c outputs.
Proof.
  intros Hx Hc Hu. eexists.
  split; [apply highwaynet_units; eassumption|].
  unfold tf.dense. rewrite highway_closed.
  apply (shape3_map_rows n t c inputs (fun _ r => _) Hx).
  intros s r Hs Hr. destruct (shape3_In n t c inputs s r Hx Hs Hr) as [_ [Hl _]].
  apply highway_row_length; [| |assumption]; rewrite length_map, length_seq; reflexivity.
Qed.

(** X10. When the gate activation takes its values in [0, 1], every output
    element lies between the transform [H] and the input at that
    element. *)
Theorem highwaynet_between (v : highway_vars) (inputs : tensor3) (num_units : option nat)
    (n t c i j k : nat) :
  (forall a, 0 <= sigmoid a <= 1) ->
  shape3 n t c inputs -> channels inputs = c ->
  num_units = None \/ num_units = Some 0%nat \/ num_units = Some c ->
  (i < n)%nat -> (j < t)%nat -> (k < c)%nat ->
  exists outputs,
    highwaynet sigmoid v inputs num_units = Ok outputs /\
    Rmin (elt (tf.dense (dense1 v) c tf.relu inputs) i j k) (elt inputs i j k)
      <= elt outputs i j k
      <= Rmax (elt (tf.dense (dense1 v) c tf.relu inputs) i j k) (elt inputs i j k).
Proof.
  intros Hsig Hx Hc Hu Hi Hj Hk.
  destruct (highwaynet_elt v inputs num_units n t c i j k Hx Hc Hu Hi Hj Hk)
    as [outputs [Ho [_ [HT He]]]].
  exists outputs. split; [exact Ho|]. rewrite He, HT.
  set (g := sigmoid _). pose proof (Hsig (dot (nth j (nth i inputs []) [])
                   (column 0 k (tf.dense_kernel (dense2 v)))
               + nth k (tf.dense_bias (dense2 v)) 0)) as Hg. fold g in Hg.
  set (h := elt (tf.dense (dense1 v) c tf.relu inputs) i j k).
  set (a := elt inputs i j k).
  unfold Rmin, Rmax. destruct (Rle_dec h a); split; nra.
Qed.

End HighwayFurther.

Lemma hard_sigmoid_range (a : R) : 0 <= hard_sigmoid a <= 1.
Proof.
  unfold hard_sigmoid. split.
  - apply Rmax_l.
  - apply Rmax_lub; [lra|apply Rmin_l].
Qed.

Lemma highwaynet_shape_witness :
  let v := {| dense1 := tf.Build_dense_vars [[2]] [1];
              dense2 := tf.Build_dense_vars [[4]] [0] |} in
  exists outputs,
    highwaynet hard_sigmoid v [[[1]; [-1]]] (Some 0%nat) = Ok outputs /\
    shape3 1 2 1 outputs.
Proof.
  intros v. apply (highwaynet_shape hard_sigmoid v [[[1]; [-1]]] (Some 0%nat) 1 2 1).
  - split; [reflexivity|]. repeat constructor.
  - reflexivity.
  - right; left; reflexivity.
Defined.

Lemma highwaynet_between_witness :
  let v := {| dense1 := tf.Build_dense_vars [[2]] [1];
              dense2 := tf.Build_dense_vars [[4]] [0] |} in
  let x := [[[1]; [-1]]] in
  exists outputs,
    highwaynet hard_sigmoid v x None = Ok outputs /\
    Rmin (elt (tf.dense (dense1 v) 1 tf.relu x) 0 1 0) (elt x 0 1 0)
      <= elt outputs 0 1 0
      <= Rmax (elt (tf.dense (dense1 v) 1 tf.relu x) 0 1 0) (elt x 0 1 0).
Proof.
  intros v x.
  apply (highwaynet_between hard_sigmoid v x None 1 2 1 0 1 0 hard_sigmoid_range).
  - split; [reflexivity|]. repeat constructor.
  - reflexivity.
  - left; reflexivity.
  - lia.
  - lia.
  - lia.
Defined.

(** ** [conv1d]: the causal formula, channels and padding modes *)

Lemma dot_zeros (c : nat) (w : vec) : dot (repeat 0 c) w = 0.
Proof.
  unfold dot. revert w; induction c as [|c IH]; intros [|b w]; simpl; try lra.
  rewrite IH. lra.
Qed.

Lemma nth_zeros (p c i : nat) : (i < p)%nat -> nth i (tf.zeros p c) [] = repeat 0 c.
Proof. intros H. unfold tf.zeros. apply nth_repeat_lt, H. Qed.

(** One tap of the causal convolution: tap [j] reads the input
    [(size - 1 - j) * rate] steps back, and nothing before time 0. *)
Lemma causal_tap (k : list mat) (size rate c : nat) (s : mat) (t o j : nat) :
  (j < size)%nat ->
  dot (nth (t + j * rate) (tf.zeros ((size - 1) * rate) c ++ s) [])
      (column 0 o (nth j k [])) =
  if ((size - 1 - j) * rate <=? t)%nat
  then dot (nth (t - (size - 1 - j) * rate) s []) (column 0 o (nth j k []))
  else 0.
Proof.
  intros Hj.
  assert (E : ((size - 1) * rate = (size - 1 - j) * rate + j * rate)%nat).
  { rewrite <- Nat.mul_add_distr_r. f_equal. lia. }
  destruct (Nat.leb_spec ((size - 1 - j) * rate) t) as [Hle|Hlt].
  - rewrite app_nth2 by (rewrite zeros_length; lia). rewrite zeros_length.
    do 2 f_equal. lia.
  - rewrite app_nth1 by (rewrite zeros_length; lia).
    rewrite nth_zeros by lia. apply dot_zeros.
Qed.

(** X11. The causal branch, element by element: the output at time [t] is the
    sum over the taps [j] of the kernel slice [j] applied to the input at
    time [t - (size - 1 - j) * rate], taps that would read before time 0
    contributing nothing, plus the bias when it is used. *)
Theorem conv1d_causal_formula (v : conv1d_vars) (x : tensor3) (filters : option nat)
    (size rate : Z) (padding : string) (use_bias : bool) (i t o : nat) :
  (1 <= size)%Z -> (1 <= rate)%Z -> lower padding = "causal"%string ->
  (i < length x)%nat -> (t < length (nth i x []))%nat ->
  (o < match filters with None => channels x | Some f => f end)%nat ->
  exists out,
    conv1d_tensor v x filters size rate padding use_bias = Ok out /\
    elt out i t o =
      let y :=
        sum (map (fun j =>
          if ((Z.to_nat size - 1 - j) * Z.to_nat rate <=? t)%nat
          then dot (nth (t - (Z.to_nat size - 1 - j) * Z.to_nat rate) (nth i x []) [])
                   (column 0 o (nth j (tf.kernel (conv v)) []))
          else 0) (seq 0 (Z.to_nat size))) in
      if use_bias then y + nth o (tf.bias (conv v)) 0 else y.
Proof.
  intros Hs Hr Hp Hi Ht Ho.
  assert (Htd : (1 <= time_dim x)%nat) by (pose proof (time_dim_nth x i); lia).
  eexists. split; [apply conv1d_tensor_causal; assumption|]. unfold elt.
  rewrite (nth_map_lt _ x i []) by assumption.
  unfold causal_rows.
  rewrite (nth_map_lt _ (seq 0 (length (nth i x []))) t 0%nat)
    by (rewrite length_seq; assumption).
  rewrite seq_nth by assumption.
  rewrite (nth_seq_map _ _ o 0) by assumption. simpl Nat.add. cbv zeta.
  assert (Ey : tf.conv_at (tf.kernel (conv v)) (Z.to_nat size) (Z.to_nat rate)
                 (tf.zeros ((Z.to_nat size - 1) * Z.to_nat rate) (channels x)
                  ++ nth i x []) t o =
    sum (map (fun j =>
          if ((Z.to_nat size - 1 - j) * Z.to_nat rate <=? t)%nat
          then dot (nth (t - (Z.to_nat size - 1 - j) * Z.to_nat rate) (nth i x []) [])
                   (column 0 o (nth j (tf.kernel (conv v)) []))
          else 0) (seq 0 (Z.to_nat size)))).
  { unfold tf.conv_at. f_equal. apply map_ext_in. intros j Hj. apply in_seq in Hj.
    apply causal_tap. lia. }
  rewrite Ey. reflexivity.
Qed.

Lemma conv1d_causal_formula_witness :
  let v := {| conv := tf.Build_conv_vars [[[1]]; [[2]]] [0];
              norm := {| beta := [0]; gamma := [1];
                         bn := tf.Build_bn_vars [1] [0] [0] [1] |} |} in
  exists out,
    conv1d_tensor v [[[1]; [2]; [3]]] None 2 1 "causal" false = Ok out /\
    elt out 0 0 0 = 0 + (dot [1] [2] + 0).
Proof.
  intros v.
  destruct (conv1d_causal_formula v [[[1]; [2]; [3]]] None 2 1 "causal" false 0 0 0)
    as [out [E H]].
  - lia.
  - lia.
  - reflexivity.
  - simpl. lia.
  - simpl. lia.
  - simpl. lia.
  - exists out. split; [exact E|]. exact H.
Defined.

Lemma conv_rows_channels (v : tf.conv_vars) (use_bias : bool) (filters size rate : nat)
    (s : mat) (n : nat) :
  Forall (fun r : vec => length r = filters)
    (tf.conv_rows v use_bias filters size rate s n).
Proof.
  apply Forall_forall. intros r Hr. unfold tf.conv_rows in Hr.
  apply in_map_iff in Hr as [t [<- _]]. rewrite length_map, length_seq. reflexivity.
Qed.

Lemma layers_conv1d_channels (v : tf.conv_vars) (x : tensor3) (filters : nat)
    (size rate : Z) (padding : string) (use_bias : bool) (out : tensor3) :
  tf.layers_conv1d v x filters size rate padding use_bias = Ok out ->
  Forall (Forall (fun r : vec => length r = filters)) out.
Proof.
  unfold tf.layers_conv1d.
  destruct ((size <? 1)%Z || (rate <? 1)%Z); [discriminate|].
  destruct (String.eqb (lower padding) "valid").
  - unfold tf.conv_valid. destruct (time_dim x <=? _)%nat; [discriminate|].
    intros E. injection E as <-. apply Forall_map, Forall_forall.
    intros s _. apply conv_rows_channels.
  - destruct (String.eqb (lower padding) "same"); [|discriminate].
    intros E. injection E as <-. apply Forall_map, Forall_forall.
    intros s _. apply conv_rows_channels.
Qed.

(** X12. Whenever the convolution of [conv1d] returns, in any padding mode,
    every output vector has [filters] channels, and as many as the input
    when [filters] is left out. *)
Theorem conv1d_tensor_channels (v : conv1d_vars) (x : tensor3) (filters : option nat)
    (size rate : Z) (padding : string) (use_bias : bool) (out : tensor3) :
  conv1d_tensor v x filters size rate padding use_bias = Ok out ->
  Forall (Forall (fun r : vec =>
    length r = match filters with None => channels x | Some f => f end)) out.
Proof.
  unfold conv1d_tensor.
  destruct (String.eqb (lower padding) "causal").
  - unfold tf.pad_time. destruct ((size - 1) * rate <? 0)%Z; [discriminate|].
    simpl bind. rewrite channels_pad. apply layers_conv1d_channels.
  - simpl bind. apply layers_conv1d_channels.
Qed.

Lemma conv1d_tensor_channels_witness :
  let v := {| conv := tf.Build_conv_vars [[[1]]; [[2]]] [0];
              norm := {| beta := [0]; gamma := [1];
                         bn := tf.Build_bn_vars [1] [0] [0] [1] |} |} in
  exists out,
    conv1d_tensor v [[[1]; [3]]] None 2 1 "valid" false = Ok out /\
    Forall (Forall (fun r : vec => length r = 1%nat)) out.
Proof.
  intros v.
  destruct (conv1d_tensor_valid v [[[1]; [3]]] None 2 1 "valid" false 2)
    as [out [E _]]; try lia; try reflexivity.
  - discriminate.
  - repeat constructor.
  - exists out. split; [exact E|].
    apply (conv1d_tensor_channels v [[[1]; [3]]] None 2 1 "valid" false out E).
Defined.

Lemma lower_ascii_idem (ch : ascii) : lower_ascii (lower_ascii ch) = lower_ascii ch.
Proof.
  destruct ch as [[] [] [] [] [] [] [] []]; reflexivity.
Qed.

Lemma lower_idem (s : string) : lower (lower s) = lower s.
Proof.
  induction s as [|ch s IH]; simpl; [reflexivity|].
  rewrite lower_ascii_idem, IH. reflexivity.
Qed.

Lemma layers_conv1d_lower (v : tf.conv_vars) (x : tensor3) (filters : nat)
    (size rate : Z) (padding : string) (use_bias : bool) :
  tf.layers_conv1d v x filters size rate (lower padding) use_bias =
  tf.layers_conv1d v x filters size rate padding use_bias.
Proof.
  unfold tf.layers_conv1d. rewrite lower_idem. reflexivity.
Qed.

Lemma conv1d_tensor_lower (v : conv1d_vars) (x : tensor3) (filters : option nat)
    (size rate : Z) (padding : string) (use_bias : bool) :
  conv1d_tensor v x filters size rate (lower padding) use_bias =
  conv1d_tensor v x filters size rate padding use_bias.
Proof.
  unfold conv1d_tensor. rewrite lower_idem.
  destruct (String.eqb (lower padding) "causal"); [reflexivity|].
  simpl bind. apply layers_conv1d_lower.
Qed.

Lemma conv1d_transpose_tensor_lower (v : conv1d_transpose_vars) (x : tensor3)
    (filters : option nat) (size stride : Z) (padding : string) (use_bias : bool) :
  conv1d_transpose_tensor v x filters size stride (lower padding) use_bias =
  conv1d_transpose_tensor v x filters size stride padding use_bias.
Proof.
  unfold conv1d_transpose_tensor, tf.layers_conv2d_transpose.
  rewrite lower_idem. reflexivity.
Qed.

(** X13. The padding mode is read without regard to case: [conv1d] and
    [conv1d_transpose] return the same on [padding] and on its lower-case
    form. *)
Theorem padding_case_insensitive (v : conv1d_vars) (w : conv1d_transpose_vars)
    (keep : nat -> nat -> nat -> bool) (x : tensor3) (filters : option nat)
    (size rate : Z) (padding : string) (dropout_rate : R) (use_bias : bool)
    (norm_type : option string) (activation_fn : option (tensor3 -> tensor3))
    (training : bool) :
  conv1d v keep x filters size rate (lower padding) dropout_rate use_bias norm_type
    activation_fn training =
  conv1d v keep x filters size rate padding dropout_rate use_bias norm_type
    activation_fn training /\
  conv1d_transpose w keep x filters size rate (lower padding) dropout_rate norm_type
    activation_fn training use_bias =
  conv1d_transpose w keep x filters size rate padding dropout_rate norm_type
    activation_fn training use_bias.
Proof.
  unfold conv1d, conv1d_transpose.
  rewrite conv1d_tensor_lower, conv1d_transpose_tensor_lower. split; reflexivity.
Qed.

Lemma mapM_ext {A B : Type} (f g : A -> result B) (l : list A) :
  (forall a, f a = g a) -> mapM f l = mapM g l.
Proof.
  intros H. induction l as [|a l IH]; simpl; [reflexivity|]. rewrite H, IH. reflexivity.
Qed.

(** With a kernel of size 1 the window span is zero, and on a non-empty
    time axis the three padding modes compute the same convolution. *)
Lemma conv1d_tensor_size_one (v : conv1d_vars) (x : tensor3) (filters : option nat)
    (rate : Z) (padding : string) (use_bias : bool) :
  (1 <= rate)%Z -> (1 <= time_dim x)%nat ->
  lower padding = "same"%string \/ lower padding = "valid"%string \/
    lower padding = "causal"%string ->
  conv1d_tensor v x filters 1 rate padding use_bias =
  Ok (map (fun s =>
        tf.conv_rows (conv v) use_bias
          (match filters with None => channels x | Some f => f end) 1 (Z.to_nat rate)
          s (length s)) x).
Proof.
  intros Hr Ht [Hp | [Hp | Hp]].
  - unfold conv1d_tensor. rewrite Hp. simpl bind.
    rewrite layers_conv1d_same by (assumption || lia).
    change (Z.to_nat 1) with 1%nat. simpl Nat.sub. simpl Nat.mul. simpl Nat.div.
    f_equal. apply map_ext. intros s. simpl app. rewrite app_nil_r. reflexivity.
  - unfold conv1d_tensor. rewrite Hp. simpl bind.
    rewrite layers_conv1d_valid by (assumption || lia).
    change (Z.to_nat 1) with 1%nat.
    rewrite conv_valid_Ok by (simpl; lia).
    f_equal. apply map_ext. intros s. simpl Nat.sub. simpl Nat.mul.
    rewrite Nat.sub_0_r. reflexivity.
  - rewrite conv1d_tensor_causal by (assumption || lia). reflexivity.
Qed.

(** X14. A kernel of size 1 makes the padding mode irrelevant on a
    non-empty time axis: [conv1d] returns the same for [same], [valid] and
    [causal]. *)
Theorem conv1d_size_one_padding (v : conv1d_vars) (keep : nat -> nat -> nat -> bool)
    (x : tensor3) (filters : option nat) (rate : Z) (p1 p2 : string)
    (dropout_rate : R) (use_bias : bool) (norm_type : option string)
    (activation_fn : option (tensor3 -> tensor3)) (training : bool) :
  (1 <= rate)%Z -> (1 <= time_dim x)%nat ->
  lower p1 = "same"%string \/ lower p1 = "valid"%string \/ lower p1 = "causal"%string ->
  lower p2 = "same"%string \/ lower p2 = "valid"%string \/ lower p2 = "causal"%string ->
  conv1d v keep x filters 1 rate p1 dropout_rate use_bias norm_type activation_fn training =
  conv1d v keep x filters 1 rate p2 dropout_rate use_bias norm_type activation_fn training.
Proof.
  intros Hr Ht H1 H2. unfold conv1d.
  rewrite (conv1d_tensor_size_one v x filters rate p1 use_bias Hr Ht H1).
  rewrite (conv1d_tensor_size_one v x filters rate p2 use_bias Hr Ht H2).
  reflexivity.
Qed.

Lemma conv1d_size_one_padding_witness :
  let v := {| conv := tf.Build_conv_vars [[[3]]] [1];
              norm := {| beta := [0]; gamma := [1];
                         bn := tf.Build_bn_vars [1] [0] [0] [1] |} |} in
  let keep := fun _ _ _ : nat => true in
  conv1d v keep [[[1]; [2]]] None 1 2 "SAME" 0 true None None false =
  conv1d v keep [[[1]; [2]]] None 1 2 "causal" 0 true None None false.
Proof.
  intros v keep.
  apply (conv1d_size_one_padding v keep [[[1]; [2]]] None 2 "SAME" "causal").
  - lia.
  - unfold time_dim. simpl. lia.
  - left; reflexivity.
  - right; right; reflexivity.
Defined.

(** X15. A [valid] convolution needs the whole window inside the input:
    [conv1d] fails with a shape error on a non-empty batch whose time
    length is below [(size - 1) * rate]. *)
Theorem conv1d_valid_too_short (v : conv1d_vars) (keep : nat -> nat -> nat -> bool)
    (x : tensor3) (filters : option nat) (size rate : Z) (padding : string)
    (dropout_rate : R) (use_bias : bool) (norm_type : option string)
    (activation_fn : option (tensor3 -> tensor3)) (training : bool) (L : nat) :
  (1 <= size)%Z -> (1 <= rate)%Z -> lower padding = "valid"%string ->
  x <> [] -> time_length L x -> (Z.of_nat L < (size - 1) * rate)%Z ->
  conv1d v keep x filters size rate padding dropout_rate use_bias norm_type
    activation_fn training = Err ShapeError.
Proof.
  intros Hs Hr Hp Hx HL Hlt. apply conv1d_tensor_Err.
  apply (conv1d_tensor_valid_short v x filters size rate padding use_bias L);
    try assumption. lia.
Qed.

Lemma conv1d_valid_too_short_witness :
  let v := {| conv := tf.Build_conv_vars [[[1]]; [[2]]; [[3]]] [0];
              norm := {| beta := [0]; gamma := [1];
                         bn := tf.Build_bn_vars [1] [0] [0] [1] |} |} in
  let keep := fun _ _ _ : nat => true in
  conv1d v keep [[[1]]] None 3 1 "valid" 0 true None None true = Err ShapeError.
Proof.
  intros v keep.
  apply (conv1d_valid_too_short v keep [[[1]]] None 3 1 "valid" 0 true None None true 1).
  - lia.
  - lia.
  - reflexivity.
  - discriminate.
  - repeat constructor.
  - lia.
Defined.

(** One causal layer: identity on [0, t] is kept, and so is the extent
    of the time axis. *)
Lemma conv1d_causal_step (v : conv1d_vars) (keep : nat -> nat -> nat -> bool)
    (x y : tensor3) (filters : option nat) (size rate : Z) (padding : string)
    (dropout_rate : R) (use_bias : bool) (norm_type : option string)
    (activation_fn : option (tensor3 -> tensor3)) (training : bool) (t : nat) :
  (1 <= size)%Z -> (1 <= rate)%Z -> lower padding = "causal"%string ->
  type_is norm_type "ins" = false ->
  (type_is norm_type "bn" = true -> training = false) ->
  (forall f, activation_fn = Some f ->
     forall a b, agree_upto t a b -> agree_upto t (f a) (f b)) ->
  (forall f, activation_fn = Some f ->
     forall a, map (@length (list R)) (f a) = map (@length (list R)) a) ->
  (training = true -> 0 <= dropout_rate < 1) ->
  (1 <= time_dim x)%nat -> agree_upto t x y ->
  exists ox oy,
    conv1d v keep x filters size rate padding dropout_rate use_bias norm_type
      activation_fn training = Ok ox /\
    conv1d v keep y filters size rate padding dropout_rate use_bias norm_type
      activation_fn training = Ok oy /\
    agree_upto t ox oy /\ (1 <= time_dim ox)%nat.
Proof.
  intros Hs Hr Hp Hins Hbn Hact Hlen Hdrop Ht Hxy.
  destruct (conv1d_tensor_causality v x y filters size rate padding use_bias t
              Hs Hr Hp Ht Hxy) as [cx [cy [Ex [Ey [Hc [Hlx _]]]]]].
  destruct (conv1d_post_causal v keep x y filters size rate padding dropout_rate
              use_bias norm_type activation_fn training t cx cy Ex Ey Hc Hins Hbn
              Hact Hdrop) as [ox [oy [Eox [Eoy Ho]]]].
  destruct (conv1d_post_lengths v keep x filters size rate padding dropout_rate
              use_bias norm_type activation_fn training cx Hdrop Hlen Ex)
    as [ox' [Eox' Hl]].
  assert (ox' = ox) by congruence. subst ox'.
  exists ox, oy. repeat split; try assumption.
  rewrite (time_dim_lengths ox x) by congruence. assumption.
Qed.

(** X16. Two causal [conv1d] layers in sequence are causal: on inputs
    identical on [0, t], with a non-empty time axis, the second layer
    returns tensors identical on [0, t], with any kernel sizes and
    dilation rates of the two layers, when the normalisation does not
    reduce over time, the activation respects identity on [0, t] and
    keeps the extents, and the dropout rate lies in [0, 1) while
    training. *)
Theorem conv1d_stack_causality (v1 v2 : conv1d_vars) (keep : nat -> nat -> nat -> bool)
    (x y : tensor3) (filters1 filters2 : option nat) (size1 rate1 size2 rate2 : Z)
    (dropout_rate : R) (use_bias : bool) (norm_type : option string)
    (activation_fn : option (tensor3 -> tensor3)) (training : bool) (t : nat) :
  (1 <= size1)%Z -> (1 <= rate1)%Z -> (1 <= size2)%Z -> (1 <= rate2)%Z ->
  type_is norm_type "ins" = false ->
  (type_is norm_type "bn" = true -> training = false) ->
  (forall f, activation_fn = Some f ->
     forall a b, agree_upto t a b -> agree_upto t (f a) (f b)) ->
  (forall f, activation_fn = Some f ->
     forall a, map (@length (list R)) (f a) = map (@length (list R)) a) ->
  (training = true -> 0 <= dropout_rate < 1) ->
  (1 <= time_dim x)%nat -> agree_upto t x y ->
  exists ox oy,
    (h <- conv1d v1 keep x filters1 size1 rate1 "causal" dropout_rate use_bias norm_type
            activation_fn training ;;
     conv1d v2 keep h filters2 size2 rate2 "causal" dropout_rate use_bias norm_type
       activation_fn training) = Ok ox /\
    (h <- conv1d v1 keep y filters1 size1 rate1 "causal" dropout_rate use_bias norm_type
            activation_fn training ;;
     conv1d v2 keep h filters2 size2 rate2 "causal" dropout_rate use_bias norm_type
       activation_fn training) = Ok oy /\
    agree_upto t ox oy.
Proof.
  intros Hs1 Hr1 Hs2 Hr2 Hins Hbn Hact Hlen Hdrop Ht Hxy.
  destruct (conv1d_causal_step v1 keep x y filters1 size1 rate1 "causal" dropout_rate
              use_bias norm_type activation_fn training t Hs1 Hr1 eq_refl Hins Hbn
              Hact Hlen Hdrop Ht Hxy) as [hx [hy [Ex [Ey [Hh Hth]]]]].
  destruct (conv1d_causal_step v2 keep hx hy filters2 size2 rate2 "causal" dropout_rate
              use_bias norm_type activation_fn training t Hs2 Hr2 eq_refl Hins Hbn
              Hact Hlen Hdrop Hth Hh) as [ox [oy [Eox [Eoy [Ho _]]]]].
  exists ox, oy. rewrite Ex, Ey. simpl bind. auto.
Qed.

Lemma conv1d_stack_causality_witness :
  let v := {| conv := tf.Build_conv_vars [[[1; 2]]; [[3; -1]]] [0; 1];
              norm := {| beta := [0; 0]; gamma := [1; 1];
                         bn := tf.Build_bn_vars [1; 1] [0; 0] [0; 0] [1; 1] |} |} in
  let w := {| conv := tf.Build_conv_vars [[[1; 0]; [0; 1]]; [[2; 1]; [1; 3]]] [1; 0];
              norm := {| beta := [0; 0]; gamma := [1; 1];
                         bn := tf.Build_bn_vars [1; 1] [0; 0] [0; 0] [1; 1] |} |} in
  let keep := fun n t c : nat => Nat.even (n + t + c) in
  let x := [[[1]; [2]; [3]]] in
  let y := [[[1]; [2]; [5]]] in
  exists ox oy,
    (h <- conv1d v keep x (Some 2%nat) 2 1 "causal" (/ 2) true None None true ;;
     conv1d w keep h None 2 2 "causal" (/ 2) true None None true) = Ok ox /\
    (h <- conv1d v keep y (Some 2%nat) 2 1 "causal" (/ 2) true None None true ;;
     conv1d w keep h None 2 2 "causal" (/ 2) true None None true) = Ok oy /\
    agree_upto 1 ox oy.
Proof.
  intros v w keep x y.
  apply (conv1d_stack_causality v w keep x y (Some 2%nat) None 2 1 2 2 (/ 2) true
           None None true 1).
  - lia.
  - lia.
  - lia.
  - lia.
  - reflexivity.
  - discriminate.
  - discriminate.
  - discriminate.
  - intros _. lra.
  - unfold x, time_dim. simpl. lia.
  - reflexivity.
Defined.

(** ** [conv1d_transpose]: lengths and channels *)

Lemma conv1d_transpose_tensor_valid (v : conv1d_transpose_vars) (x : tensor3)
    (filters : option nat) (size stride : Z) (padding : string) (use_bias : bool) :
  (1 <= size)%Z -> (1 <= stride)%Z -> lower padding = "valid"%string ->
  exists out,
    conv1d_transpose_tensor v x filters size stride padding use_bias = Ok out /\
    map (@length (list R)) out =
    map (fun s : mat =>
      (length s * Z.to_nat stride + (Z.to_nat size - Z.to_nat stride))%nat) x.
Proof.
  intros Hs Hr Hp. unfold conv1d_transpose_tensor, tf.layers_conv2d_transpose.
  destruct (Z.ltb_spec size 1); [lia|]. destruct (Z.ltb_spec stride 1); [lia|].
  rewrite Hp. simpl. eexists. split; [reflexivity|].
  unfold tf.squeeze1, tf.expand_dims1. rewrite !map_map. apply map_ext; intros s.
  simpl. rewrite length_map, length_seq. reflexivity.
Qed.

(** X17. With [valid] padding, and a dropout rate in [0, 1) while
    training, the upsampled time length is
    [L * stride + max (size - stride) 0]: a kernel longer than the stride
    adds its overhang. *)
Theorem conv1d_transpose_valid_length (v : conv1d_transpose_vars)
    (keep : nat -> nat -> nat -> bool) (x : tensor3) (filters : option nat)
    (size stride : Z) (padding : string) (dropout_rate : R) (norm_type : option string)
    (activation : option (tensor3 -> tensor3)) (training use_bias : bool) (L : nat) :
  (1 <= size)%Z -> (1 <= stride)%Z -> lower padding = "valid"%string ->
  time_length L x ->
  (training = true -> 0 <= dropout_rate < 1) ->
  (forall f, activation = Some f ->
     forall a, map (@length (list R)) (f a) = map (@length (list R)) a) ->
  exists out,
    conv1d_transpose v keep x filters size stride padding dropout_rate norm_type
      activation training use_bias = Ok out /\
    length out = length x /\
    Forall (fun s : mat =>
      Z.of_nat (length s) = (Z.of_nat L * stride + Z.max (size - stride) 0)%Z) out.
Proof.
  intros Hs Hr Hp Hx Hdrop Hact.
  destruct (conv1d_transpose_tensor_valid v x filters size stride padding use_bias
              Hs Hr Hp) as [tensor [E Hl]].
  destruct (conv1d_transpose_post_lengths v keep x filters size stride padding
              dropout_rate norm_type activation training use_bias tensor Hdrop Hact E)
    as [out [Eo Ho]].
  exists out. split; [exact Eo|]. rewrite Hl in Ho. split.
  - rewrite <- (length_map (@length (list R)) out), Ho. apply length_map.
  - unfold time_length in Hx. clear -Ho Hx Hr Hs.
    revert out Ho; induction Hx as [|s x Hsl _ IH]; intros [|o out] Ho;
      simpl in Ho; try discriminate; constructor.
    + injection Ho as Ho _. rewrite Ho, Hsl. nia.
    + apply IH. injection Ho as _ Ho. exact Ho.
Qed.

Lemma conv1d_transpose_valid_length_witness :
  let v := {| deconv := tf.Build_deconv_vars [[[[1]]; [[2]]; [[3]]]] [0];
              tnorm := {| beta := [0]; gamma := [1];
                          bn := tf.Build_bn_vars [1] [0] [0] [1] |} |} in
  let keep := fun _ _ _ : nat => true in
  exists out,
    conv1d_transpose v keep [[[1]; [2]; [3]; [4]]] None 3 2 "VALID" (/ 4) None None
      true true = Ok out /\
    length out = 1%nat /\
    Forall (fun s : mat => Z.of_nat (length s) = 9%Z) out.
Proof.
  intros v keep.
  apply (conv1d_transpose_valid_length v keep [[[1]; [2]; [3]; [4]]] None 3 2 "VALID"
           (/ 4) None None true true 4).
  - lia.
  - lia.
  - reflexivity.
  - repeat constructor.
  - intros _. lra.
  - discriminate.
Defined.

(** X18. Whenever the transposed convolution returns, it keeps the batch
    extent, and every output vector has [filters] channels, as many as
    the input when [filters] is left out. *)
Theorem conv1d_transpose_tensor_channels (v : conv1d_transpose_vars) (x : tensor3)
    (filters : option nat) (size stride : Z) (padding : string) (use_bias : bool)
    (out : tensor3) :
  conv1d_transpose_tensor v x filters size stride padding use_bias = Ok out ->
  length out = length x /\
  Forall (Forall (fun r : vec =>
    length r = match filters with None => channels x | Some f => f end)) out.
Proof.
  unfold conv1d_transpose_tensor, tf.layers_conv2d_transpose.
  destruct ((size <? 1)%Z || (stride <? 1)%Z); [discriminate|].
  assert (K : forall front extra,
    length (tf.squeeze1
      (map (map (fun row : mat =>
         map (fun q =>
           map (fun o =>
             let y := tf.deconv_at (hd [] (tf.t_kernel (deconv v))) (Z.to_nat size)
                        (Z.to_nat stride) front row q o in
             if use_bias then y + nth o (tf.t_bias (deconv v)) 0 else y)
           (seq 0 (match filters with None => channels x | Some f => f end)))
         (seq 0 (length row * Z.to_nat stride + extra)))) (tf.expand_dims1 x)))
    = length x /\
    Forall (Forall (fun r : vec =>
      length r = match filters with None => channels x | Some f => f end))
      (tf.squeeze1
      (map (map (fun row : mat =>
         map (fun q =>
           map (fun o =>
             let y := tf.deconv_at (hd [] (tf.t_kernel (deconv v))) (Z.to_nat size)
                        (Z.to_nat stride) front row q o in
             if use_bias then y + nth o (tf.t_bias (deconv v)) 0 else y)
           (seq 0 (match filters with None => channels x | Some f => f end)))
         (seq 0 (length row * Z.to_nat stride + extra)))) (tf.expand_dims1 x)))).
  { intros front extra. unfold tf.squeeze1, tf.expand_dims1. rewrite !map_map.
    split; [apply length_map|].
    apply Forall_forall. intros s' Hs'. apply in_map_iff in Hs' as [s [<- _]]. simpl.
    apply Forall_forall. intros r Hr. apply in_map_iff in Hr as [q [<- _]].
    rewrite length_map, length_seq. reflexivity. }
  destruct (String.eqb (lower padding) "same").
  - simpl bind. intros E. injection E as <-. apply K.
  - destruct (String.eqb (lower padding) "valid"); [|discriminate].
    simpl bind. intros E. injection E as <-. apply K.
Qed.

Lemma conv1d_transpose_tensor_channels_witness :
  let v := {| deconv := tf.Build_deconv_vars [[[[1]]; [[2]]; [[3]]]] [0];
              tnorm := {| beta := [0]; gamma := [1];
                          bn := tf.Build_bn_vars [1] [0] [0] [1] |} |} in
  exists out,
    conv1d_transpose_tensor v [[[1]; [2]]] None 3 2 "same" true = Ok out /\
    length out = 1%nat /\
    Forall (Forall (fun r : vec => length r = 1%nat)) out.
Proof.
  intros v.
  destruct (conv1d_transpose_tensor_same v [[[1]; [2]]] None 3 2 "same" true)
    as [out [E _]]; try lia; try reflexivity.
  exists out. split; [exact E|].
  apply (conv1d_transpose_tensor_channels v [[[1]; [2]]] None 3 2 "same" true out E).
Defined.
